(** * Sophie: a shallow embedding of [bot.py]

    The Telegram group bot of [bot.py] is modelled function by function.
    Python [str] values are sequences of Unicode code points, [float]
    values are IEEE 754 binary64 numbers (Rocq's primitive floats), the two
    module-level dictionaries are finite maps keyed by the chat id, and the
    effects of the coroutines (the POST to the completion endpoint,
    [asyncio.sleep], [reply_text]) are recorded as a trace of events. *)

From Stdlib Require Import ZArith NArith List Ascii String Floats Uint63 DecimalString Lia.
From Stdlib Require DecimalPos DecimalZ.
From stdpp Require Import gmap list.

Local Open Scope Z_scope.

(** ** Python strings *)

(** A [str] is a sequence of code points; [len] is [length], the slice
    [s[:n]] is [take n s]. *)
Definition char : Type := N.
Abbreviation pystr := (list char).

(** The code points of a literal that only holds ASCII characters. *)
Definition lit (s : string) : pystr :=
  map N_of_ascii (list_ascii_of_string s).

Definition SPACE : char := 32%N.
Definition NEWLINE : char := 10%N.
Definition SLASH : char := 47%N.
Definition AT_SIGN : char := 64%N.
(** U+2026 HORIZONTAL ELLIPSIS, U+2014 EM DASH, U+2019 RIGHT SINGLE QUOTATION MARK *)
Definition ELLIPSIS : char := 8230%N.
Definition EM_DASH : char := 8212%N.
Definition RSQUO : char := 8217%N.

(** [str.isspace] of one character, which is also what [\s] matches in a
    [str] pattern: CPython's [Py_UNICODE_ISSPACE]. *)
Definition is_space (c : char) : bool :=
  ((9 <=? c) && (c <=? 13) || (28 <=? c) && (c <=? 32) || (c =? 133) || (c =? 160)
   || (c =? 5760) || (8192 <=? c) && (c <=? 8202) || (c =? 8232) || (c =? 8233)
   || (c =? 8239) || (c =? 8287) || (c =? 12288))%N.

Fixpoint lstrip (s : pystr) : pystr :=
  match s with
  | c :: rest => if is_space c then lstrip rest else s
  | [] => []
  end.

Definition rstrip (s : pystr) : pystr := rev (lstrip (rev s)).

(** [s.strip()] *)
Definition strip (s : pystr) : pystr := rstrip (lstrip s).

(** [re.sub(r"\s+", " ", s)]: every maximal run of whitespace becomes one
    space; [in_run] tells that the previous character was whitespace. *)
Fixpoint collapse_spaces (in_run : bool) (s : pystr) : pystr :=
  match s with
  | [] => []
  | c :: rest =>
      if is_space c
      then (if in_run then collapse_spaces true rest else SPACE :: collapse_spaces true rest)
      else c :: collapse_spaces false rest
  end.

Definition normalize_text (s : pystr) : pystr := collapse_spaces false (strip s).

Definition char_eqb (a b : char) : bool := (a =? b)%N.

(** [s.startswith(p)] *)
Fixpoint startswith (p s : pystr) : bool :=
  match p, s with
  | [], _ => true
  | a :: p', b :: s' => char_eqb a b && startswith p' s'
  | _ :: _, [] => false
  end.

(** [p in s] *)
Fixpoint contains (p s : pystr) : bool :=
  startswith p s || match s with [] => false | _ :: s' => contains p s' end.

(** [sep.join(parts)] *)
Fixpoint join (sep : pystr) (parts : list pystr) : pystr :=
  match parts with
  | [] => []
  | [p] => p
  | p :: rest => p ++ sep ++ join sep rest
  end.

(** [s.rsplit(sep, 1)[0]] for a one-character separator: the text before the
    last [sep], the whole of [s] when it holds none. [None] stands for
    "no separator from here on". *)
Fixpoint before_last (sep : char) (s : pystr) : option pystr :=
  match s with
  | [] => None
  | c :: rest =>
      match before_last sep rest with
      | Some head => Some (c :: head)
      | None => if char_eqb c sep then Some [] else None
      end
  end.

Definition rsplit1_head (sep : char) (s : pystr) : pystr :=
  match before_last sep s with Some head => head | None => s end.

(** [str(n)] of an integer, as in an f-string. *)
Definition str_of_int (n : Z) : pystr :=
  lit (NilEmpty.string_of_int (Z.to_int n)).

(** ** Module state *)

(** [CHAT_HISTORY] is a [defaultdict] of [deque(maxlen=3)], [LAST_ROAST_AT]
    a plain [dict] of monotonic times. *)
Record State : Type := mkState {
  CHAT_HISTORY : gmap Z (list pystr);
  LAST_ROAST_AT : gmap Z float
}.

Definition initial_state : State := mkState ∅ ∅.

(** ** Cooldown *)

(** [roast_allowed(chat_id)], with [now] the reading of the event loop's
    clock. *)
Definition roast_allowed (now : float) (chat_id : Z) (st : State) : bool * State :=
  let last := default 0%float (LAST_ROAST_AT st !! chat_id) in
  if PrimFloat.ltb (PrimFloat.sub now last) 120%float
  then (false, st)
  else (true, mkState (CHAT_HISTORY st) (<[chat_id := now]> (LAST_ROAST_AT st))).

(** ** Completion client *)

(** What the handler does to the outside world, in order. *)
Inductive event : Type :=
| EvPost (prompt : pystr)      (* session.post(HF_CHAT_URL, ...) *)
| EvSleep (seconds : float)    (* asyncio.sleep(seconds) *)
| EvReply (text : pystr).      (* update.message.reply_text(text) *)

(** The two [except] clauses of [hf_generate] tell [asyncio.TimeoutError]
    from every other [Exception]. *)
Inductive exn : Type := TimeoutError | OtherError.

(** A decoded JSON document, as [r.json()] returns it. *)
#[warnings="-register-all"]
Inductive json : Type :=
| JNull
| JBool (b : bool)
| JInt (n : Z)
| JFloat (x : float)
| JStr (s : pystr)
| JArr (items : list json)
| JObj (members : list (pystr * json)).

(** A response of the endpoint: the status line has arrived; reading the
    body ([r.json()], [r.text()]) may still time out or fail. *)
Record Response : Type := mkResponse {
  status : Z;
  json_body : exn + json;
  text_body : exn + pystr
}.

(** The endpoint as the client sees it: what the POST of each attempt
    yields, an exception or a response. *)
Definition endpoint_t : Type := nat -> exn + Response.

Definition pystr_eqb (a b : pystr) : bool := bool_decide (a = b).

(** A later member wins when an object repeats a key, as in a [dict]. *)
Fixpoint obj_get (k : pystr) (members : list (pystr * json)) : option json :=
  match members with
  | [] => None
  | (k', v) :: rest =>
      match obj_get k rest with
      | Some v' => Some v'
      | None => if pystr_eqb k k' then Some v else None
      end
  end.

(** [v[k]] for a [str] key: [KeyError] or [TypeError] is [None]. *)
Definition getitem_key (v : json) (k : pystr) : option json :=
  match v with
  | JObj members => obj_get k members
  | _ => None
  end.

(** [v[0]]: the first item of a list, the first character of a string;
    [IndexError], [KeyError] or [TypeError] is [None]. *)
Definition getitem_0 (v : json) : option json :=
  match v with
  | JArr (x :: _) => Some x
  | JStr (c :: _) => Some (JStr [c])
  | _ => None
  end.

(** [v.strip()]: only a [str] has the method. *)
Definition json_strip (v : json) : option pystr :=
  match v with
  | JStr s => Some (strip s)
  | _ => None
  end.

(** [data["choices"][0]["message"]["content"].strip()] *)
Definition first_choice_content (data : json) : option pystr :=
  choices ← getitem_key data (lit "choices");
  choice ← getitem_0 choices;
  message ← getitem_key choice (lit "message");
  content ← getitem_key message (lit "content");
  json_strip content.

(** [f"(LLM error {r.status}) {txt[:3500]}…"] *)
Definition llm_error (code : Z) (txt : pystr) : pystr :=
  lit "(LLM error " ++ str_of_int code ++ lit ") " ++ take 3500 txt ++ [ELLIPSIS].

Definition FROZE : pystr :=
  lit "Sorry love" ++ [EM_DASH] ++ lit "my brain froze for a second. Try again?".
Definition BROKE : pystr :=
  lit "Oops love" ++ [ELLIPSIS] ++ lit " something broke on my side. Try again in a moment?".
Definition BUSY : pystr :=
  lit "I" ++ [RSQUO] ++ lit "m a bit busy right now, my dear" ++ [EM_DASH]
  ++ lit "try again shortly.".

(** [1.2 + attempt * 0.8] *)
#[warnings="-inexact-float"]
Definition backoff (attempt : nat) : float :=
  (1.2 + PrimFloat.of_uint63 (Uint63.of_Z (Z.of_nat attempt)) * 0.8)%float.

(** How the body of the [try] ends. *)
Inductive try_result : Type :=
| Returns (s : pystr)
| Continues
| Raises (e : exn).

Definition is_retry_status (code : Z) : bool := (code =? 429) || (code =? 503).

(** The [async with session.post(...) as r:] block of one attempt: its
    events after the POST, and how it ends. *)
Definition try_block (attempt : nat) (outcome : exn + Response) : list event * try_result :=
  match outcome with
  | inl e => ([], Raises e)
  | inr r =>
      if status r =? 200 then
        match json_body r with
        | inl e => ([], Raises e)
        | inr data =>
            match first_choice_content data with
            | Some content => ([], Returns content)
            | None => ([], Raises OtherError)
            end
        end
      else if is_retry_status (status r) then
        ([EvSleep (backoff attempt)], Continues)
      else
        match text_body r with
        | inl e => ([], Raises e)
        | inr txt => ([], Returns (llm_error (status r) txt))
        end
  end.

(** The [except] clauses: [Some s] when the iteration returns [s], [None]
    when the loop goes on. *)
Definition handle (attempt : nat) (t : try_result) : option pystr :=
  match t with
  | Returns s => Some s
  | Continues => None
  | Raises TimeoutError => if (attempt =? 2)%nat then Some FROZE else None
  | Raises OtherError => if (attempt =? 2)%nat then Some BROKE else None
  end.

(** One iteration of [for attempt in range(3)]. *)
Definition attempt_step (endpoint : endpoint_t) (prompt : pystr) (attempt : nat)
  : list event * option pystr :=
  let '(evs, t) := try_block attempt (endpoint attempt) in
  (EvPost prompt :: evs, handle attempt t).

Fixpoint hf_loop (endpoint : endpoint_t) (prompt : pystr) (attempts : list nat)
  : pystr * list event :=
  match attempts with
  | [] => (BUSY, [])
  | attempt :: rest =>
      let '(evs, ret) := attempt_step endpoint prompt attempt in
      match ret with
      | Some s => (s, evs)
      | None => let '(s, evs') := hf_loop endpoint prompt rest in (s, evs ++ evs')
      end
  end.

Definition hf_generate (endpoint : endpoint_t) (prompt : pystr) : pystr * list event :=
  hf_loop endpoint prompt (seq 0 3).

(** The loop reaches attempt [i]: no earlier iteration returned. *)
Definition reaches (endpoint : endpoint_t) (prompt : pystr) (i : nat) : Prop :=
  ∀ j, (j < i)%nat → snd (attempt_step endpoint prompt j) = None.

(** The events of the iterations before attempt [i]. *)
Definition events_before (endpoint : endpoint_t) (prompt : pystr) (i : nat) : list event :=
  concat (map (λ j, fst (attempt_step endpoint prompt j)) (seq 0 i)).

Definition is_post (e : event) : bool :=
  match e with EvPost _ => true | _ => false end.
Definition is_sleep (e : event) : bool :=
  match e with EvSleep _ => true | _ => false end.

(** Number of POSTs in a trace. *)
Definition posts (evs : list event) : nat := length (filter (λ e, is_post e = true) evs).
Definition sleeps (evs : list event) : list event := filter (λ e, is_sleep e = true) evs.

(** ** Conversation context *)

(** [d.append(x)] on a [deque(maxlen=n)]: a full deque drops its oldest
    (leftmost) entry. *)
Definition deque_append (maxlen : nat) (d : list pystr) (x : pystr) : list pystr :=
  let d' := d ++ [x] in
  if (maxlen <? length d')%nat then drop 1 d' else d'.

(** [CHAT_HISTORY[chat_id]]: reading a missing key of the [defaultdict]
    stores a fresh empty deque under it. *)
Definition history_get (chat_id : Z) (h : gmap Z (list pystr))
  : list pystr * gmap Z (list pystr) :=
  match h !! chat_id with
  | Some d => (d, h)
  | None => ([], <[chat_id := []]> h)
  end.

(** [CHAT_HISTORY[chat_id].append(entry)] *)
Definition history_append (chat_id : Z) (entry : pystr) (h : gmap Z (list pystr))
  : gmap Z (list pystr) :=
  let '(d, h') := history_get chat_id h in
  <[chat_id := deque_append 3 d entry]> h'.

(** The ChatContext of a chat: what [CHAT_HISTORY[chat_id]] reads. *)
Definition chat_context (h : gmap Z (list pystr)) (chat_id : Z) : list pystr :=
  default [] (h !! chat_id).

(** ** Incoming updates *)

Record User : Type := mkUser {
  first_name : pystr;
  username : option pystr
}.

Record Chat : Type := mkChat {
  chat_ident : Z;     (* chat.id *)
  chat_type : pystr   (* chat.type *)
}.

Record RepliedMessage : Type := mkReplied {
  replied_from_user : option User
}.

(** An entity the platform marks in the text of a message. *)
Record MessageEntity : Type := mkEntity {
  entity_type : pystr;   (* "bot_command", "mention", ... *)
  entity_offset : Z;
  entity_length : Z
}.

Record Message : Type := mkMessage {
  text : option pystr;
  entities : list MessageEntity;
  chat : option Chat;
  from_user : option User;
  reply_to_message : option RepliedMessage
}.

Record Update : Type := mkUpdate {
  message : option Message
}.

Definition is_empty (s : pystr) : bool :=
  match s with [] => true | _ => false end.

Definition is_group (update : Update) : bool :=
  match message update with
  | Some msg =>
      match chat msg with
      | Some c => pystr_eqb (chat_type c) (lit "group") || pystr_eqb (chat_type c) (lit "supergroup")
      | None => false
      end
  | None => false
  end.

Definition roast_candidate_name (update : Update) : pystr :=
  match message update with
  | Some msg =>
      match from_user msg with
      | Some user => if is_empty (first_name user) then lit "love" else first_name user
      | None => lit "love"
      end
  | None => lit "love"
  end.

(** The filters of python-telegram-bot that [main] gives to the handler:
    [filters.TEXT] holds on a message with a non-empty text,
    [filters.COMMAND] on a message whose first entity is a bot command at
    the start of the text. *)
Definition filters_TEXT (msg : Message) : bool :=
  match text msg with
  | Some (_ :: _) => true
  | _ => false
  end.

Definition filters_COMMAND (msg : Message) : bool :=
  match entities msg with
  | first :: _ => pystr_eqb (entity_type first) (lit "bot_command") && (entity_offset first =? 0)
  | [] => false
  end.

(** [filters.TEXT & ~filters.COMMAND], on the message of the update. *)
Definition handler_accepts (update : Update) : bool :=
  match message update with
  | Some msg => filters_TEXT msg && negb (filters_COMMAND msg)
  | None => false
  end.

(** [random.randint(1, 50) == 1], on the number drawn. *)
Definition roast_probability (draw : Z) : bool := draw =? 1.

(** ** Reply post-processing (the tail of the LLM branch of [on_text]) *)

Definition CLARIFY : pystr := lit "What love? Ask me again, please.".

Definition postprocess (reply : pystr) : pystr :=
  let reply := strip reply in
  let reply := if is_empty reply then CLARIFY else reply in
  if (3500 <? length reply)%nat
  then rsplit1_head SPACE (take 3500 reply) ++ [ELLIPSIS]
  else reply.

(** [s] without the characters whose mark is set. *)
Fixpoint keep_unmarked (marks : list bool) (s : pystr) : pystr :=
  match marks, s with
  | m :: marks', c :: s' =>
      if m then keep_unmarked marks' s' else c :: keep_unmarked marks' s'
  | _, _ => s
  end.

(** ** Trigger classifier, prompt builder and handler *)

(** What the handler reads from its surroundings while it serves one
    update. *)
Record Env : Type := mkEnv {
  env_bot_username : option pystr;  (* context.bot.username *)
  env_endpoint : endpoint_t;        (* the completion endpoint *)
  env_randint : Z;                  (* random.randint(1, 50) *)
  env_choice : nat;                 (* the index random.choice draws *)
  env_now : float                   (* asyncio.get_event_loop().time() *)
}.

Section Bot.

(** CPython's Unicode case tables are outside the repository: [lower] is
    [str.lower], and [ci_eq p c] tells whether the pattern literal [p]
    matches the subject character [c] under [re.IGNORECASE]. *)
Variable lower : pystr -> pystr.
Variable ci_eq : char -> char -> bool.

(** [ROAST_LINES], loaded from the comments file at start-up. *)
Variable ROAST_LINES : list pystr.

Definition mention_trigger (msg_text bot_username : pystr) : bool :=
  negb (is_empty bot_username)
  && contains (lower (AT_SIGN :: bot_username)) (lower msg_text).

Definition reply_trigger (msg : Message) (bot_username : pystr) : bool :=
  match reply_to_message msg with
  | Some replied =>
      match replied_from_user replied with
      | Some user => bool_decide (username user = Some bot_username)
      | None => false
      end
  | None => false
  end.

Definition should_answer_with_llm (update : Update) (bot_username : pystr) : bool :=
  match message update with
  | None => false
  | Some msg =>
      match text msg with
      | None | Some [] => false
      | Some msg_text =>
          if mention_trigger msg_text bot_username then true
          else if reply_trigger msg bot_username then true
          else false
      end
  end.

(** The literal pattern [pat] matches at the head of [s], ignoring case. *)
Fixpoint match_here (pat s : pystr) : bool :=
  match pat, s with
  | [], _ => true
  | p :: pat', c :: s' => ci_eq p c && match_here pat' s'
  | _ :: _, [] => false
  end.

(** The scan of [re.sub(pat, "", s, flags=re.IGNORECASE)] for a literal,
    non-empty [pat]: [skip] characters of the match found last are still
    to be dropped. *)
Fixpoint sub_scan (pat : pystr) (skip : nat) (s : pystr) : pystr :=
  match s with
  | [] => []
  | c :: rest =>
      match skip with
      | S k => sub_scan pat k rest
      | O =>
          if match_here pat s
          then sub_scan pat (length pat - 1) rest
          else c :: sub_scan pat 0 rest
      end
  end.

(** [re.sub(rf"@{re.escape(bot_username)}", "", user_text, flags=re.IGNORECASE)] *)
Definition strip_mentions (bot_username user_text : pystr) : pystr :=
  sub_scan (AT_SIGN :: bot_username) 0 user_text.

Definition cleaned_text (user_text bot_username : pystr) : pystr :=
  take 800 (strip (strip_mentions bot_username user_text)).

(** [list(history)[-2:]] *)
Definition context_entries (history : list pystr) : list pystr :=
  drop (length history - 2) history.

Definition context_block (history : list pystr) : pystr :=
  join [NEWLINE] (map (λ h, lit "- " ++ h) (context_entries history)).

Definition build_prompt (user_text : pystr) (history : list pystr) (bot_username : pystr)
  : pystr :=
  lit "You are a bot in a telegram groupchat. Reply in 1-4 sentences and be helpful and clear"
  ++ [NEWLINE; NEWLINE] ++ lit "Recent chat context:" ++ [NEWLINE]
  ++ context_block history
  ++ [NEWLINE; NEWLINE] ++ lit "The user is addressing you directly and asked:" ++ [NEWLINE]
  ++ cleaned_text user_text bot_username
  ++ [NEWLINE; NEWLINE] ++ lit "Reply:".

(** An occurrence of the literal [pat] starts at position [i] of [s]. *)
Definition occurs_at (pat s : pystr) (i : nat) : bool := match_here pat (drop i s).

(** Position [j] of [s] lies inside an occurrence of [pat]. *)
Definition in_occurrence (pat s : pystr) (j : nat) : bool :=
  existsb (λ i, (j <? i + length pat)%nat && occurs_at pat s i) (seq 0 (S j)).

(** The characters the scan of [sub_scan] drops, position by position. *)
Fixpoint scan_marks (pat : pystr) (skip : nat) (s : pystr) : list bool :=
  match s with
  | [] => []
  | c :: rest =>
      match skip with
      | S k => true :: scan_marks pat k rest
      | O =>
          if match_here pat s
          then true :: scan_marks pat (length pat - 1) rest
          else false :: scan_marks pat 0 rest
      end
  end.

(** The state of the scan when it stands at position [j] of [s] with
    [k] characters still to drop. *)
Definition scan_inv (pat s : pystr) (j k : nat) : Prop :=
  (k = 0%nat ∧ ∀ i, (i < j)%nat → (j < i + length pat)%nat → occurs_at pat s i = false)
  ∨ ((0 < k)%nat ∧ (k < length pat)%nat
     ∧ ∃ start, (start + length pat = j + k)%nat ∧ occurs_at pat s start = true).

(** No character of the handle matches a character that the at sign
    matches: the handle holds no at sign, as no Telegram username does. *)
Definition handle_plain (bot_username : pystr) : Prop :=
  ∀ c, ci_eq AT_SIGN c = true → Forall (λ p, ci_eq p c = false) bot_username.

(** [random.choice(ROAST_LINES)], on the index drawn. *)
Definition roast_choice (k : nat) : pystr :=
  default [] (ROAST_LINES !! (k mod length ROAST_LINES)%nat).

(** [on_text(update, context)]: the state after the call and the events
    of the call. *)
Definition on_text (env : Env) (update : Update) (st : State) : State * list event :=
  match message update with
  | None => (st, [])
  | Some msg =>
      match text msg with
      | None | Some [] => (st, [])
      | Some raw =>
          if negb (is_group update) then (st, []) else
          match chat msg with
          | None => (st, [])   (* excluded by [is_group] *)
          | Some ch =>
              let chat_id := chat_ident ch in
              let bot_username := default [] (env_bot_username env) in
              let user_name := roast_candidate_name update in
              let txt := normalize_text raw in
              (* Save some context (skip commands) *)
              let history :=
                if negb (startswith [SLASH] txt)
                then history_append chat_id (user_name ++ lit ": " ++ take 120 txt)
                       (CHAT_HISTORY st)
                else CHAT_HISTORY st in
              (* 1) LLM reply ONLY when mentioned *)
              if should_answer_with_llm update bot_username then
                let '(entries, history') := history_get chat_id history in
                let prompt := build_prompt txt entries bot_username in
                let '(reply, evs) := hf_generate (env_endpoint env) prompt in
                (mkState history' (LAST_ROAST_AT st), evs ++ [EvReply (postprocess reply)])
              else
                (* 2) Otherwise: occasional roast (rare + cooldown) *)
                let st1 := mkState history (LAST_ROAST_AT st) in
                if roast_probability (env_randint env) then
                  let '(ok, st2) := roast_allowed (env_now env) chat_id st1 in
                  if ok
                  then (st2, [EvReply (user_name ++ lit " " ++ roast_choice (env_choice env))])
                  else (st2, [])
                else (st1, [])
          end
      end
  end.

(** The application of [main] on one update: [on_text] is registered as
    [MessageHandler(filters.TEXT & ~filters.COMMAND, on_text)], the only
    handler. *)
Definition handle_update (env : Env) (update : Update) (st : State) : State * list event :=
  if handler_accepts update then on_text env update st else (st, []).

(** The handler run over a sequence of updates, each with its
    surroundings. *)
Definition run (calls : list (Env * Update)) (st : State) : State :=
  foldl (λ st call, fst (on_text call.1 call.2 st)) st calls.

End Bot.

(** ** Definitions used in the statements and sample inputs *)

(** ASCII-only case tables, enough for handles and texts of ASCII
    characters. *)
Definition ascii_lower_char (c : char) : char :=
  if ((65 <=? c) && (c <=? 90))%N then (c + 32)%N else c.
Definition ascii_lower (s : pystr) : pystr := map ascii_lower_char s.
Definition ascii_ci_eq (p c : char) : bool :=
  char_eqb (ascii_lower_char p) (ascii_lower_char c).

(** The backoff schedule of the specification, in seconds. *)
#[warnings="-inexact-float"]
Definition SCHEDULE : list float := [1.2; 2.0; 2.8]%float.

(** An endpoint that is always unavailable. *)
Definition endpoint_unavailable : endpoint_t :=
  λ _, inr (mkResponse 503 (inl OtherError) (inr (lit "Service Unavailable"))).

(** The [try] block of attempt [i] raises [e]: the POST itself, or reading
    the body of its response. *)
Definition try_raises (endpoint : endpoint_t) (i : nat) (e : exn) : Prop :=
  snd (try_block i (endpoint i)) = Raises e.

(** The fallback of the [except] clause that catches [e]. *)
Definition fallback (e : exn) : pystr :=
  match e with TimeoutError => FROZE | OtherError => BROKE end.

(** An endpoint that always times out. *)
Definition endpoint_timeout : endpoint_t := λ _, inl TimeoutError.

(** A well-formed completion body. *)
Definition completion_body (content : pystr) : json :=
  JObj [(lit "choices",
         JArr [JObj [(lit "message",
                      JObj [(lit "role", JStr (lit "assistant"));
                            (lit "content", JStr content)])]])].

Definition response_ok (content : pystr) : Response :=
  mkResponse 200 (inr (completion_body content)) (inl OtherError).

Definition response_503 : Response :=
  mkResponse 503 (inl OtherError) (inr (lit "Service Unavailable")).

(** Unavailable twice, then a completion. *)
Definition endpoint_recovering : endpoint_t :=
  λ i, if (i <? 2)%nat then inr response_503 else inr (response_ok (lit " Hello there. ")).

Definition endpoint_unauthorized : endpoint_t :=
  λ _, inr (mkResponse 401 (inl OtherError) (inr (lit "Invalid credentials"))).

(** The entries a sequence of appends holds for one chat, oldest first. *)
Definition entries_of (chat_id : Z) (appended : list (Z * pystr)) : list pystr :=
  map snd (filter (λ a, a.1 = chat_id) appended).

Definition append_all (appended : list (Z * pystr)) (h : gmap Z (list pystr))
  : gmap Z (list pystr) :=
  foldl (λ h a, history_append a.1 a.2 h) h appended.

(** The truncation of a long reply as the specification words it: cut at
    the last whitespace character of the first [limit] characters. *)
Fixpoint before_last_whitespace (s : pystr) : option pystr :=
  match s with
  | [] => None
  | c :: rest =>
      match before_last_whitespace rest with
      | Some head => Some (c :: head)
      | None => if is_space c then Some [] else None
      end
  end.

Definition truncate_at_whitespace (limit : nat) (reply : pystr) : pystr :=
  match before_last_whitespace (take limit reply) with
  | Some head => head
  | None => take limit reply
  end ++ [ELLIPSIS].

(** A reply of 3501 characters: a one-letter line, a line break, and a
    3499-letter word. *)
Definition reply_two_lines : pystr := lit "a" ++ [NEWLINE] ++ repeat 98%N 3499.

(** A reply of 4000 characters, 800 times a four-letter word and a space. *)
Definition reply_4000 : pystr := concat (repeat (lit "word ") 800).

(** Sample updates of a group chat. *)
Definition sophie : pystr := lit "Sophie_bot".

Definition group_message (msg_text : pystr) (marked : list MessageEntity) : Update :=
  mkUpdate (Some (mkMessage (Some msg_text) marked (Some (mkChat (-1001) (lit "supergroup")))
                    (Some (mkUser (lit "Ann") (Some (lit "ann_92")))) None)).

(** A message that starts with a slash but not with a bot command, and
    mentions the bot. *)
Definition slash_text : pystr := lit "/ what is up @sophie_bot?".
Definition slash_message : Update :=
  group_message slash_text [mkEntity (lit "mention") 13 11].

(** A message that starts with a bot command and mentions the bot. *)
Definition command_text : pystr := lit "/ask @sophie_bot what is up?".
Definition command_message : Update :=
  group_message command_text
    [mkEntity (lit "bot_command") 0 4; mkEntity (lit "mention") 5 11].

Definition sample_env (endpoint : endpoint_t) : Env :=
  mkEnv (Some sophie) endpoint 17 0 1000%float.

(** ** Start-up *)

(** The exceptions that [open(path, "r", encoding="utf-8")] and the
    iteration over the file raise for a path that exists: the path is a
    directory, the file may not be read, its bytes are not UTF-8, or any
    other [OSError]. *)
Inductive io_error : Type :=
| IsADirectoryError
| PermissionError
| UnicodeDecodeError
| OSError.

(** What the module reads when it is imported: [getenv] is [os.getenv];
    [files path] is [None] when [os.path.exists(path)] is false, and
    otherwise what opening the path and iterating over it gives: the
    sequence of its lines, or the exception raised on the way. *)
Record World : Type := mkWorld {
  getenv : pystr -> option pystr;
  files : pystr -> option (io_error + list pystr)
}.

(** The module is imported, or a [RuntimeError] of the module's own is
    raised, or an exception of the file system goes through. *)
Inductive startup (A : Type) : Type :=
| Started (a : A)
| RuntimeError (msg : pystr)
| Raised (e : io_error).
Arguments Started {A} a.
Arguments RuntimeError {A} msg.
Arguments Raised {A} e.

(** [[line.strip() for line in f if line.strip()]] *)
Fixpoint stripped_lines (lines : list pystr) : list pystr :=
  match lines with
  | [] => []
  | line :: rest =>
      if is_empty (strip line) then stripped_lines rest
      else strip line :: stripped_lines rest
  end.

Definition load_texts (w : World) (path : pystr) : startup (list pystr) :=
  match files w path with
  | None => RuntimeError (path ++ lit " file not found")
  | Some (inl e) => Raised e
  | Some (inr lines) => Started (stripped_lines lines)
  end.

(** The module-level constants. *)
Record Config : Type := mkConfig {
  cfg_TOKEN : pystr;
  cfg_RENDER_URL : pystr;
  cfg_HF_API_TOKEN : pystr;
  cfg_HF_MODEL : pystr;
  cfg_ROAST_FILE : pystr;
  cfg_ROAST_LINES : list pystr
}.

(** [not v] for a value of [os.getenv]: unset or empty. *)
Definition unset (v : option pystr) : bool :=
  match v with
  | Some (_ :: _) => false
  | _ => true
  end.

(** The statements of the module up to [ROAST_LINES], in order. *)
Definition module_init (w : World) : startup Config :=
  let TOKEN := getenv w (lit "BOT_TOKEN") in
  let RENDER_URL := getenv w (lit "RENDER_EXTERNAL_URL") in
  let HF_API_TOKEN := getenv w (lit "HF_API_TOKEN") in
  let HF_MODEL := default (lit "mistralai/Mistral-7B-Instruct-v0.2") (getenv w (lit "HF_MODEL")) in
  let ROAST_FILE := default (lit "comments.txt") (getenv w (lit "ROAST_FILE")) in
  if unset TOKEN then RuntimeError (lit "BOT_TOKEN is not set")
  else if unset RENDER_URL then RuntimeError (lit "RENDER_EXTERNAL_URL is not set")
  else if unset HF_API_TOKEN then RuntimeError (lit "HF_API_TOKEN is not set")
  else
    match load_texts w ROAST_FILE with
    | RuntimeError msg => RuntimeError msg
    | Raised e => Raised e
    | Started lines =>
        match lines with
        | [] => RuntimeError (lit "comments file is empty")
        | _ :: _ =>
            Started (mkConfig (default [] TOKEN) (default [] RENDER_URL)
                       (default [] HF_API_TOKEN) HF_MODEL ROAST_FILE lines)
        end
    end.

(** ** Predicates of the statements about texts *)

(** [s] does not start with whitespace, does not end with whitespace. *)
Definition no_lead (s : pystr) : Prop :=
  match s with
  | c :: _ => is_space c = false
  | [] => True
  end.

Definition no_trail (s : pystr) : Prop := no_lead (rev s).

(** No two whitespace characters of [s] are adjacent. *)
Fixpoint single_spaced (s : pystr) : Prop :=
  match s with
  | a :: (b :: _) as rest => (is_space a = true → is_space b = false) ∧ single_spaced rest
  | _ => True
  end.

(** A sample world: the three tokens set, a comments file with a blank line. *)
Definition sample_world : World :=
  mkWorld
    (λ name,
       if pystr_eqb name (lit "BOT_TOKEN") then Some (lit "123:abc")
       else if pystr_eqb name (lit "RENDER_EXTERNAL_URL") then Some (lit "https://sophie.example")
       else if pystr_eqb name (lit "HF_API_TOKEN") then Some (lit "hf_xyz")
       else None)
    (λ path,
       if pystr_eqb path (lit "comments.txt")
       then Some (inr [lit "  is late again " ++ [NEWLINE]; [NEWLINE];
                       lit "forgot the keys" ++ [NEWLINE]])
       else None).

(** The same environment where the comments path is a directory, a second
    path holds bytes that are not UTF-8, and a third only blank lines. *)
Definition unreadable_world : World :=
  mkWorld
    (getenv sample_world)
    (λ path,
       if pystr_eqb path (lit "comments.txt") then Some (inl IsADirectoryError)
       else if pystr_eqb path (lit "latin1.txt") then Some (inl UnicodeDecodeError)
       else if pystr_eqb path (lit "blank.txt") then Some (inr [[NEWLINE]; lit "  " ++ [NEWLINE]])
       else None).

(** ** Runs of the handler and their roasts *)

(** The chat of an update. *)
Definition update_chat (update : Update) : option Z :=
  msg ← message update; ch ← chat msg; Some (chat_ident ch).

(** Number of replies in a trace, and the texts sent. *)
Definition replies (evs : list event) : list pystr :=
  omap (λ e, match e with EvReply t => Some t | _ => None end) evs.

(** The events of a call that sent a roast: one reply, and no completion
    request before it. *)
Definition is_roast (evs : list event) : bool :=
  match evs with
  | [EvReply _] => true
  | _ => false
  end.

(** Every roast of a log came when the code's own test [now - last < 120]
    was false, [last] being the clock at the latest earlier roast in the
    same chat, or what [recorded] holds for the chat, or 0.0. *)
Fixpoint cooldown_from (recorded : gmap Z float) (log : list (Z * float)) : Prop :=
  match log with
  | [] => True
  | (c, t) :: rest =>
      PrimFloat.ltb (PrimFloat.sub t (default 0%float (recorded !! c))) 120%float = false
      ∧ cooldown_from (<[c := t]> recorded) rest
  end.

(** The history after the first step of [on_text], which records the
    message unless its normalized text starts with a slash. *)
Definition recorded (update : Update) (raw : pystr) (ch : Chat) (st : State)
  : gmap Z (list pystr) :=
  if negb (startswith [SLASH] (normalize_text raw))
  then history_append (chat_ident ch)
         (roast_candidate_name update ++ lit ": " ++ take 120 (normalize_text raw))
         (CHAT_HISTORY st)
  else CHAT_HISTORY st.

Section Runs.

Variable lower : pystr -> pystr.
Variable ci_eq : char -> char -> bool.
Variable ROAST_LINES : list pystr.

(** The roast a call of [on_text] sent, as the chat and the clock reading. *)
Definition roast_of (env : Env) (update : Update) (st : State) : list (Z * float) :=
  if is_roast (snd (on_text lower ci_eq ROAST_LINES env update st))
  then match update_chat update with
       | Some c => [(c, env_now env)]
       | None => []
       end
  else [].

(** The state after a sequence of calls, and the roasts sent on the way,
    oldest first. *)
Fixpoint run_log (calls : list (Env * Update)) (st : State) : State * list (Z * float) :=
  match calls with
  | [] => (st, [])
  | (env, update) :: rest =>
      let st' := fst (on_text lower ci_eq ROAST_LINES env update st) in
      let '(st'', log) := run_log rest st' in
      (st'', roast_of env update st ++ log)
  end.

End Runs.

(** A private chat message that mentions the bot. *)
Definition private_message : Update :=
  mkUpdate (Some (mkMessage (Some (lit "hello @sophie_bot")) [mkEntity (lit "mention") 6 11]
                    (Some (mkChat 42 (lit "private")))
                    (Some (mkUser (lit "Ann") (Some (lit "ann_92")))) None)).

(** A group message that mentions the bot, and one that does not. *)
Definition mention_message : Update :=
  group_message (lit "hello   @sophie_bot ") [mkEntity (lit "mention") 8 11].
Definition ambient_message : Update := group_message (lit "good morning") [].

(** Surroundings in which the roast draw fires. *)
Definition roast_env (now : float) : Env := mkEnv (Some sophie) endpoint_timeout 1 0 now.

(** Three ambient messages of one chat, at 500 s, 560 s and 620 s, each
    with a draw that fires. *)
Definition three_calls : list (Env * Update) :=
  [(roast_env 500, ambient_message); (roast_env 560, ambient_message);
   (roast_env 620, ambient_message)].

Definition ambient_msg : Message :=
  mkMessage (Some (lit "good morning")) [] (Some (mkChat (-1001) (lit "supergroup")))
    (Some (mkUser (lit "Ann") (Some (lit "ann_92")))) None.

(** ** Outcomes of the completion client *)

(** A response that ends the call at once: a 200 whose body holds the
    content [s] once trimmed, or a status other than 200, 429 and 503 whose
    diagnostic is [s]. *)
Definition definitive (r : Response) (s : pystr) : Prop :=
  (status r = 200 ∧ ∃ data, json_body r = inr data ∧ first_choice_content data = Some s)
  ∨ (status r ≠ 200 ∧ status r ≠ 429 ∧ status r ≠ 503
     ∧ ∃ txt, text_body r = inr txt ∧ s = llm_error (status r) txt).

(** A 200 whose body is no JSON document, or lacks a string at
    [choices[0].message.content]. *)
Definition malformed_200 (r : Response) : Prop :=
  status r = 200
  ∧ (json_body r = inl OtherError
     ∨ ∃ data, json_body r = inr data ∧ first_choice_content data = None).

(** The sleeps of the three attempts, were each of them to back off. *)
Definition all_sleeps : list event := map (λ i, EvSleep (backoff i)) (seq 0 3).

(** The trace of consecutive attempts from attempt [i] on, where [slept]
    tells for each of them whether it backed off: the request of the
    attempt, directly followed by its sleep when it backed off. *)
Fixpoint attempts_trace (prompt : pystr) (i : nat) (slept : list bool) : list event :=
  match slept with
  | [] => []
  | b :: rest =>
      EvPost prompt :: (if b then [EvSleep (backoff i)] else [])
        ++ attempts_trace prompt (S i) rest
  end.

(** An endpoint that answers 200 with an error document. *)
Definition endpoint_error_document : endpoint_t :=
  λ _, inr (mkResponse 200 (inr (JObj [(lit "error", JStr (lit "model is loading"))]))
              (inl OtherError)).

(** ** Reading a decimal numeral *)

(** The value of a decimal digit. *)
Definition digit_value (c : char) : option Z :=
  if ((48 <=? c) && (c <=? 57))%N then Some (Z.of_N c - 48) else None.

(** The value of a run of decimal digits that follows the value [acc]. *)
Fixpoint digits_value (acc : Z) (s : pystr) : option Z :=
  match s with
  | [] => Some acc
  | c :: rest =>
      match digit_value c with
      | Some d => digits_value (10 * acc + d) rest
      | None => None
      end
  end.

(** The integer a text denotes in decimal, with a minus sign before the
    digits of a negative one; the empty text denotes none. *)
Definition decimal_value (s : pystr) : option Z :=
  match s with
  | [] => None
  | c :: rest =>
      if (c =? 45)%N then Z.opp <$> digits_value 0 rest else digits_value 0 s
  end.

(** An endpoint that answers 500 and whose body cannot be read. *)
Definition endpoint_broken_body : endpoint_t :=
  λ _, inr (mkResponse 500 (inl OtherError) (inl OtherError)).

(** ** Occurrences of a mention, stated on the text alone *)

(** The [length pat] characters of [s] from position [i] on match [pat]
    character by character, ignoring case. *)
Definition mention_at (ci_eq : char -> char -> bool) (pat s : pystr) (i : nat) : Prop :=
  Forall2 (λ p c, ci_eq p c = true) pat (take (length pat) (drop i s)).

(** ** Examples *)

Example backoff_ex : map backoff [0; 1; 2]%nat = SCHEDULE.
Proof. reflexivity. Qed.

Example strip_mentions_ex :
  strip_mentions ascii_ci_eq (lit "Sophie_bot") (lit "hi @SOPHIE_BOT, and @sophie_bot!")
  = lit "hi , and !".
Proof. vm_compute. reflexivity. Qed.

Example strip_mentions_reformed :
  strip_mentions ascii_ci_eq (lit "bot") (lit "@b@botot") = lit "@bot".
Proof. vm_compute. reflexivity. Qed.

(** ** Facts about the completion client *)

Lemma hf_loop_app endpoint prompt (l1 l2 : list nat) :
  (∀ j, j ∈ l1 → snd (attempt_step endpoint prompt j) = None) →
  hf_loop endpoint prompt (l1 ++ l2) =
    (fst (hf_loop endpoint prompt l2),
     concat (map (λ j, fst (attempt_step endpoint prompt j)) l1)
       ++ snd (hf_loop endpoint prompt l2)).
Proof.
  induction l1 as [|a l1 IH]; intros Hnone; simpl.
  - by destruct (hf_loop endpoint prompt l2).
  - pose proof (Hnone a (list_elem_of_here _ _)) as Ha.
    destruct (attempt_step endpoint prompt a) as [evs ret] eqn:Hstep.
    simpl in Ha. subst ret.
    rewrite IH by (intros j Hj; apply Hnone; by apply list_elem_of_further).
    simpl. by rewrite <- app_assoc.
Qed.

(** A run that reaches attempt [i] is the events of the attempts before
    [i] followed by the run from attempt [i] on. *)
Lemma hf_generate_from endpoint prompt i :
  (i <= 3)%nat → reaches endpoint prompt i →
  hf_generate endpoint prompt =
    (fst (hf_loop endpoint prompt (seq i (3 - i))),
     events_before endpoint prompt i ++ snd (hf_loop endpoint prompt (seq i (3 - i)))).
Proof.
  intros Hi Hreach. unfold hf_generate, events_before.
  replace (seq 0 3) with (seq 0 i ++ seq i (3 - i)).
  - apply hf_loop_app. intros j Hj. apply Hreach.
    apply list_elem_of_In, in_seq in Hj. lia.
  - rewrite <- seq_app. f_equal. lia.
Qed.

Lemma posts_app evs1 evs2 : posts (evs1 ++ evs2) = (posts evs1 + posts evs2)%nat.
Proof. unfold posts. by rewrite filter_app, length_app. Qed.

Lemma sleeps_app evs1 evs2 : sleeps (evs1 ++ evs2) = sleeps evs1 ++ sleeps evs2.
Proof. unfold sleeps. by rewrite filter_app. Qed.

Lemma posts_attempt_step endpoint prompt j :
  posts (fst (attempt_step endpoint prompt j)) = 1%nat.
Proof.
  unfold attempt_step, try_block.
  destruct (endpoint j) as [e|r]; [done|].
  destruct (status r =? 200).
  - destruct (json_body r) as [e|data]; [done|].
    by destruct (first_choice_content data).
  - destruct (is_retry_status (status r)); [done|].
    by destruct (text_body r).
Qed.

(** Every attempt posts once: [i] POSTs precede attempt [i]. *)
Lemma posts_events_before endpoint prompt i :
  posts (events_before endpoint prompt i) = i.
Proof.
  unfold events_before.
  assert (∀ l, posts (concat (map (λ j, fst (attempt_step endpoint prompt j)) l)) = length l)
    as Hl.
  { induction l as [|a l IH]; [done|]. simpl.
    by rewrite posts_app, posts_attempt_step, IH. }
  by rewrite Hl, length_seq.
Qed.

Lemma seq_from_lt i : (i < 3)%nat → seq i (3 - i) = i :: seq (S i) (3 - S i).
Proof. intros Hi. replace (3 - i)%nat with (S (3 - S i))%nat by lia. done. Qed.

(** The run from an attempt that does not return goes on with the next
    one, if any. *)
Lemma hf_loop_next endpoint prompt i evs :
  (i < 3)%nat → attempt_step endpoint prompt i = (evs, None) →
  hf_loop endpoint prompt (seq i (3 - i)) =
    (fst (hf_loop endpoint prompt (seq (S i) (3 - S i))),
     evs ++ snd (hf_loop endpoint prompt (seq (S i) (3 - S i)))).
Proof.
  intros Hi Hstep. rewrite seq_from_lt by done. cbn [hf_loop]. rewrite Hstep.
  by destruct (hf_loop endpoint prompt (seq (S i) (3 - S i))).
Qed.

Lemma hf_loop_return endpoint prompt i evs s :
  (i < 3)%nat → attempt_step endpoint prompt i = (evs, Some s) →
  hf_loop endpoint prompt (seq i (3 - i)) = (s, evs).
Proof. intros Hi Hstep. rewrite seq_from_lt by done. cbn [hf_loop]. by rewrite Hstep. Qed.

(** Whatever happens in an attempt, its first event is the POST. *)
Lemma hf_loop_starts_with_post endpoint prompt i :
  (i < 3)%nat →
  ∃ rest, snd (hf_loop endpoint prompt (seq i (3 - i))) = EvPost prompt :: rest.
Proof.
  intros Hi. rewrite seq_from_lt by done. cbn [hf_loop].
  destruct (attempt_step endpoint prompt i) as [evs ret] eqn:Hstep.
  unfold attempt_step in Hstep.
  destruct (try_block i (endpoint i)) as [evs0 t]. injection Hstep as <- <-.
  destruct (handle i t); [by eexists|].
  destruct (hf_loop endpoint prompt (seq (S i) (3 - S i))). by eexists.
Qed.

Lemma attempt_step_retry endpoint prompt i r :
  endpoint i = inr r → status r = 429 ∨ status r = 503 →
  attempt_step endpoint prompt i = ([EvPost prompt; EvSleep (backoff i)], None).
Proof.
  intros Hr Hst. unfold attempt_step, try_block. rewrite Hr.
  by destruct Hst as [-> | ->].
Qed.

Lemma attempt_step_raises endpoint prompt i e :
  snd (try_block i (endpoint i)) = Raises e →
  attempt_step endpoint prompt i = ([EvPost prompt], handle i (Raises e)).
Proof.
  unfold attempt_step, try_block.
  destruct (endpoint i) as [e'|r]; simpl; [by intros [= ->]|].
  destruct (status r =? 200).
  - destruct (json_body r) as [e'|data]; simpl; [by intros [= ->]|].
    destruct (first_choice_content data); simpl; [done|by intros [= <-]].
  - destruct (is_retry_status (status r)); simpl; [done|].
    destruct (text_body r); simpl; [by intros [= ->]|done].
Qed.

Lemma fallbacks_distinct : BUSY ≠ FROZE ∧ BUSY ≠ BROKE ∧ FROZE ≠ BROKE.
Proof. by repeat split. Qed.

(** C2. In [hf_generate], a response with status 429 or 503 on attempt [i]
    (counted from 0) is followed by a sleep of [1.2 + 0.8 * i] seconds, that
    is 1.2, 2.0 and 2.8 seconds, and then by the POST of the next attempt
    when one is left; when all three attempts end in that branch the
    function returns the "busy" fallback, which differs from the other two
    fallbacks. *)
Theorem hf_generate_backoff (endpoint : endpoint_t) (prompt : pystr) :
  (∀ i r, (i < 3)%nat → reaches endpoint prompt i →
     endpoint i = inr r → status r = 429 ∨ status r = 503 →
     ∃ s after,
       hf_generate endpoint prompt =
         (s, events_before endpoint prompt i
               ++ EvPost prompt :: EvSleep (backoff i) :: after)
       ∧ posts (events_before endpoint prompt i) = i
       ∧ SCHEDULE !! i = Some (backoff i)
       ∧ ((i < 2)%nat → ∃ rest, after = EvPost prompt :: rest)
       ∧ (i = 2%nat → after = [] ∧ s = BUSY))
  ∧ ((∀ i, (i < 3)%nat → ∃ r, endpoint i = inr r ∧ (status r = 429 ∨ status r = 503)) →
     hf_generate endpoint prompt =
       (BUSY, [EvPost prompt; EvSleep (backoff 0); EvPost prompt; EvSleep (backoff 1);
               EvPost prompt; EvSleep (backoff 2)])
     ∧ map backoff [0; 1; 2]%nat = SCHEDULE)
  ∧ BUSY ≠ FROZE ∧ BUSY ≠ BROKE.
Proof.
  split; [|split; [|split; apply fallbacks_distinct]].
  - intros i r Hi Hreach Hr Hst.
    pose proof (attempt_step_retry endpoint prompt i r Hr Hst) as Hstep.
    exists (fst (hf_loop endpoint prompt (seq (S i) (3 - S i)))),
           (snd (hf_loop endpoint prompt (seq (S i) (3 - S i)))).
    split; [|split; [|split; [|split]]].
    + rewrite (hf_generate_from endpoint prompt i) by (done || lia).
      by rewrite (hf_loop_next endpoint prompt i _ Hi Hstep).
    + apply posts_events_before.
    + by destruct i as [|[|[|]]]; [..|lia].
    + intros Hlt. apply hf_loop_starts_with_post. lia.
    + by intros ->.
  - intros Hall.
    destruct (Hall 0%nat) as (r0 & Hr0 & Hs0); [lia|].
    destruct (Hall 1%nat) as (r1 & Hr1 & Hs1); [lia|].
    destruct (Hall 2%nat) as (r2 & Hr2 & Hs2); [lia|].
    split; [|done].
    unfold hf_generate. cbn [seq hf_loop].
    rewrite (attempt_step_retry endpoint prompt 0 r0 Hr0 Hs0).
    rewrite (attempt_step_retry endpoint prompt 1 r1 Hr1 Hs1).
    by rewrite (attempt_step_retry endpoint prompt 2 r2 Hr2 Hs2).
Qed.

Lemma reaches_0 endpoint prompt : reaches endpoint prompt 0.
Proof. intros j Hj. lia. Qed.

Lemma hf_generate_backoff_witness :
  (∃ s after,
     hf_generate endpoint_unavailable (lit "hi") =
       (s, events_before endpoint_unavailable (lit "hi") 0
             ++ EvPost (lit "hi") :: EvSleep (backoff 0) :: after)
     ∧ posts (events_before endpoint_unavailable (lit "hi") 0) = 0%nat
     ∧ SCHEDULE !! 0%nat = Some (backoff 0)
     ∧ ((0 < 2)%nat → ∃ rest, after = EvPost (lit "hi") :: rest)
     ∧ (0%nat = 2%nat → after = [] ∧ s = BUSY))
  ∧ hf_generate endpoint_unavailable (lit "hi") =
      (BUSY, [EvPost (lit "hi"); EvSleep (backoff 0); EvPost (lit "hi"); EvSleep (backoff 1);
              EvPost (lit "hi"); EvSleep (backoff 2)]).
Proof.
  destruct (hf_generate_backoff endpoint_unavailable (lit "hi")) as (Hone & Hall & _).
  split.
  - apply (Hone 0%nat (mkResponse 503 (inl OtherError) (inr (lit "Service Unavailable")))).
    + lia.
    + apply reaches_0.
    + reflexivity.
    + right. reflexivity.
  - apply Hall. intros i _. eexists. split; [reflexivity|]. right. reflexivity.
Defined.

(** C3. In [hf_generate], a timeout on the first or second attempt is
    swallowed: nothing follows the POST of that attempt but the POST of the
    next one, without a sleep; a timeout on the third attempt returns the
    "brain froze" fallback. Any other exception behaves the same way with
    its own, different fallback. An endpoint that always times out yields
    the "brain froze" fallback after exactly three POSTs. *)
Theorem hf_generate_exceptions (endpoint : endpoint_t) (prompt : pystr) :
  (∀ i e, (i < 3)%nat → reaches endpoint prompt i → try_raises endpoint i e →
     ∃ s after,
       hf_generate endpoint prompt =
         (s, events_before endpoint prompt i ++ EvPost prompt :: after)
       ∧ posts (events_before endpoint prompt i) = i
       ∧ ((i < 2)%nat → ∃ rest, after = EvPost prompt :: rest)
       ∧ (i = 2%nat → after = [] ∧ s = fallback e))
  ∧ ((∀ i, (i < 3)%nat → endpoint i = inl TimeoutError) →
     hf_generate endpoint prompt = (FROZE, [EvPost prompt; EvPost prompt; EvPost prompt]))
  ∧ fallback TimeoutError = FROZE ∧ fallback OtherError = BROKE ∧ FROZE ≠ BROKE.
Proof.
  split; [|split; [|repeat split; apply fallbacks_distinct]].
  - intros i e Hi Hreach Hraise.
    pose proof (attempt_step_raises endpoint prompt i e Hraise) as Hstep.
    rewrite (hf_generate_from endpoint prompt i) by (done || lia).
    destruct (decide (i = 2%nat)) as [-> | Hne].
    + exists (fallback e), []. split; [|split; [|split]].
      * rewrite (hf_loop_return endpoint prompt 2 [EvPost prompt] (fallback e)); [done|lia|].
        rewrite Hstep. by destruct e.
      * apply posts_events_before.
      * lia.
      * done.
    + assert (handle i (Raises e) = None) as Hnone.
      { destruct e; simpl; by destruct (Nat.eqb_spec i 2). }
      rewrite Hnone in Hstep.
      rewrite (hf_loop_next endpoint prompt i _ Hi Hstep).
      exists (fst (hf_loop endpoint prompt (seq (S i) (3 - S i)))),
             (snd (hf_loop endpoint prompt (seq (S i) (3 - S i)))).
      split; [done|split; [apply posts_events_before|split; [|done]]].
      intros _. apply hf_loop_starts_with_post. lia.
  - intros Hall. unfold hf_generate. cbn [seq hf_loop]. unfold attempt_step.
    by rewrite !Hall by lia.
Qed.

Lemma hf_generate_exceptions_witness :
  (∃ s after,
     hf_generate endpoint_timeout (lit "hi") =
       (s, events_before endpoint_timeout (lit "hi") 0 ++ EvPost (lit "hi") :: after)
     ∧ posts (events_before endpoint_timeout (lit "hi") 0) = 0%nat
     ∧ ((0 < 2)%nat → ∃ rest, after = EvPost (lit "hi") :: rest)
     ∧ (0%nat = 2%nat → after = [] ∧ s = fallback TimeoutError))
  ∧ hf_generate endpoint_timeout (lit "hi") =
      (FROZE, [EvPost (lit "hi"); EvPost (lit "hi"); EvPost (lit "hi")]).
Proof.
  destruct (hf_generate_exceptions endpoint_timeout (lit "hi")) as (Hone & Hall & _).
  split.
  - apply (Hone 0%nat TimeoutError).
    + lia.
    + apply reaches_0.
    + reflexivity.
  - apply Hall. intros i _. reflexivity.
Defined.



(** Unavailable twice and then a completion: two sleeps, of 1.2 and 2.0
    seconds, and the trimmed content. *)
Example hf_generate_recovering :
  hf_generate endpoint_recovering (lit "hi") =
    (lit "Hello there.",
     [EvPost (lit "hi"); EvSleep (backoff 0); EvPost (lit "hi"); EvSleep (backoff 1);
      EvPost (lit "hi")]).
Proof. vm_compute. reflexivity. Qed.

Lemma digits_value_of_uint_acc (d : Decimal.uint) (acc : positive) :
  digits_value (Z.pos acc) (lit (NilEmpty.string_of_uint d))
  = Some (Z.pos (Pos.of_uint_acc d acc)).
Proof.
  revert acc. induction d; intros acc; cbn [NilEmpty.string_of_uint Pos.of_uint_acc];
    [done|..];
    unfold lit; cbn [list_ascii_of_string map]; fold (lit (NilEmpty.string_of_uint d));
    cbn [digits_value];
    match goal with
    | |- context [digit_value ?c] =>
        let v := eval vm_compute in (digit_value c) in change (digit_value c) with v
    end;
    cbv iota beta; rewrite <- IHd; f_equal; lia.
Qed.

Lemma digits_value_of_uint (d : Decimal.uint) :
  digits_value 0 (lit (NilEmpty.string_of_uint d)) = Some (Z.of_N (Pos.of_uint d)).
Proof.
  induction d; cbn [NilEmpty.string_of_uint Pos.of_uint]; [done|..];
    unfold lit; cbn [list_ascii_of_string map]; fold (lit (NilEmpty.string_of_uint d));
    cbn [digits_value];
    match goal with
    | |- context [digit_value ?c] =>
        let v := eval vm_compute in (digit_value c) in change (digit_value c) with v
    end;
    cbv iota beta; [exact IHd|..];
    cbn [Z.of_N]; rewrite <- digits_value_of_uint_acc; f_equal.
Qed.

(** The decimal numeral of an integer denotes that integer. *)
Lemma decimal_value_str_of_int (n : Z) : decimal_value (str_of_int n) = Some n.
Proof.
  unfold str_of_int. rewrite <- (DecimalZ.of_to n) at 2.
  destruct (Z.to_int n) as [d|d] eqn:Hd; cbn [NilEmpty.string_of_int Z.of_int].
  - unfold Z.of_uint. rewrite <- digits_value_of_uint.
    destruct d; try reflexivity.
    destruct n as [|p|p]; [discriminate Hd| |discriminate Hd].
    simpl in Hd. injection Hd as Hd.
    apply (f_equal Pos.of_uint) in Hd. rewrite DecimalPos.Unsigned.of_to in Hd. discriminate.
  - unfold Z.of_uint. unfold lit. cbn [list_ascii_of_string map].
    fold (lit (NilEmpty.string_of_uint d)). cbn [decimal_value].
    change (N_of_ascii "-" =? 45)%N with true. cbv iota.
    by rewrite digits_value_of_uint.
Qed.

(** C5 (as amended). In [hf_generate], a response whose status is none of
    200, 429 and 503 and whose body can be read makes the function return
    at once, with no sleep and no further attempt, a diagnostic string that
    embeds the status code, written in decimal, and the first 3500
    characters of the response body, or all of a shorter body. When reading
    the body raises, no diagnostic is returned: the exception is swallowed
    on the first two attempts, with the next request made at once, and gives
    its own fallback on the third. *)
Theorem hf_generate_other_status (endpoint : endpoint_t) (prompt : pystr) (i : nat)
    (r : Response) :
  (i < 3)%nat → reaches endpoint prompt i →
  endpoint i = inr r → status r ≠ 200 → status r ≠ 429 → status r ≠ 503 →
  (∀ txt, text_body r = inr txt →
     hf_generate endpoint prompt =
       (lit "(LLM error " ++ str_of_int (status r) ++ lit ") " ++ take 3500 txt ++ [ELLIPSIS],
        events_before endpoint prompt i ++ [EvPost prompt])
     ∧ decimal_value (str_of_int (status r)) = Some (status r)
     ∧ posts (snd (hf_generate endpoint prompt)) = S i
     ∧ sleeps (snd (hf_generate endpoint prompt)) = sleeps (events_before endpoint prompt i)
     ∧ (length (take 3500 txt) <= 3500)%nat
     ∧ take 3500 txt `prefix_of` txt
     ∧ ((length txt <= 3500)%nat → take 3500 txt = txt))
  ∧ (∀ e, text_body r = inl e →
     ∃ s after,
       hf_generate endpoint prompt =
         (s, events_before endpoint prompt i ++ EvPost prompt :: after)
       ∧ ((i < 2)%nat → ∃ rest, after = EvPost prompt :: rest)
       ∧ (i = 2%nat → after = [] ∧ s = fallback e)).
Proof.
  intros Hi Hreach Hr H200 H429 H503. split.
  - intros txt Htxt.
    assert (attempt_step endpoint prompt i
            = ([EvPost prompt], Some (llm_error (status r) txt))) as Hstep.
    { unfold attempt_step, try_block, is_retry_status. rewrite Hr.
      destruct (Z.eqb_spec (status r) 200); [done|].
      destruct (Z.eqb_spec (status r) 429); [done|].
      destruct (Z.eqb_spec (status r) 503); [done|].
      simpl. by rewrite Htxt. }
    assert (hf_generate endpoint prompt =
              (llm_error (status r) txt, events_before endpoint prompt i ++ [EvPost prompt]))
      as ->.
    { rewrite (hf_generate_from endpoint prompt i) by (done || lia).
      by rewrite (hf_loop_return endpoint prompt i _ _ Hi Hstep). }
    split; [done|]. split; [apply decimal_value_str_of_int|].
    cbn [fst snd]. split; [|split; [|split; [|split]]].
    + rewrite posts_app, posts_events_before. unfold posts. simpl. lia.
    + rewrite sleeps_app. simpl. apply app_nil_r.
    + rewrite length_take. lia.
    + apply prefix_take.
    + intros Hlen. by apply take_ge.
  - intros e He.
    assert (snd (try_block i (endpoint i)) = Raises e) as Hraise.
    { unfold try_block, is_retry_status. rewrite Hr.
      destruct (Z.eqb_spec (status r) 200); [done|].
      destruct (Z.eqb_spec (status r) 429); [done|].
      destruct (Z.eqb_spec (status r) 503); [done|].
      simpl. by rewrite He. }
    pose proof (attempt_step_raises endpoint prompt i e Hraise) as Hstep.
    rewrite (hf_generate_from endpoint prompt i) by (done || lia).
    destruct (decide (i = 2%nat)) as [-> | Hne].
    + exists (fallback e), []. split; [|split; [lia|done]].
      rewrite (hf_loop_return endpoint prompt 2 [EvPost prompt] (fallback e)); [done|lia|].
      rewrite Hstep. by destruct e.
    + assert (handle i (Raises e) = None) as Hnone.
      { destruct e; simpl; by destruct (Nat.eqb_spec i 2). }
      rewrite Hnone in Hstep.
      rewrite (hf_loop_next endpoint prompt i _ Hi Hstep).
      exists (fst (hf_loop endpoint prompt (seq (S i) (3 - S i)))),
             (snd (hf_loop endpoint prompt (seq (S i) (3 - S i)))).
      split; [done|]. split; [|done].
      intros _. apply hf_loop_starts_with_post. lia.
Qed.

Lemma hf_generate_other_status_witness :
  hf_generate endpoint_unauthorized (lit "hi") =
    (lit "(LLM error 401) Invalid credentials" ++ [ELLIPSIS], [EvPost (lit "hi")])
  ∧ decimal_value (str_of_int 401) = Some 401
  ∧ posts (snd (hf_generate endpoint_unauthorized (lit "hi"))) = 1%nat
  ∧ take 3500 (lit "Invalid credentials") = lit "Invalid credentials".
Proof.
  destruct (hf_generate_other_status endpoint_unauthorized (lit "hi") 0
              (mkResponse 401 (inl OtherError) (inr (lit "Invalid credentials"))))
    as [Hread _].
  - lia.
  - apply reaches_0.
  - reflexivity.
  - simpl. lia.
  - simpl. lia.
  - simpl. lia.
  - destruct (Hread (lit "Invalid credentials") eq_refl)
      as (Hgen & Hdec & Hposts & _ & _ & _ & Hall).
    split; [exact Hgen|]. split; [exact Hdec|]. split; [exact Hposts|].
    apply Hall. simpl. lia.
Defined.

Example str_of_int_ex :
  str_of_int 404 = lit "404" ∧ str_of_int 500 = lit "500" ∧ str_of_int 0 = lit "0"
  ∧ str_of_int (-7) = lit "-7".
Proof. by vm_compute. Qed.

(** C5 (counterexample). The endpoint [endpoint_broken_body] answers 500,
    a status that is none of 200, 429 and 503, and reading the body of its
    response raises: [hf_generate] does not return at once with a
    diagnostic, it retries twice and returns the "something broke"
    fallback after three requests. *)
Lemma hf_generate_unreadable_body :
  (∃ r, endpoint_broken_body 0%nat = inr r
        ∧ status r ≠ 200 ∧ status r ≠ 429 ∧ status r ≠ 503)
  ∧ hf_generate endpoint_broken_body (lit "hi")
    = (BROKE, [EvPost (lit "hi"); EvPost (lit "hi"); EvPost (lit "hi")])
  ∧ posts (snd (hf_generate endpoint_broken_body (lit "hi"))) = 3%nat
  ∧ startswith (lit "(LLM error ") (fst (hf_generate endpoint_broken_body (lit "hi"))) = false.
Proof.
  split; [|by vm_compute].
  eexists. split; [reflexivity|]. by repeat split.
Qed.

(** ** Facts about the cooldown *)

Lemma roast_allowed_true now chat_id st :
  fst (roast_allowed now chat_id st) = true →
  snd (roast_allowed now chat_id st)
  = mkState (CHAT_HISTORY st) (<[chat_id := now]> (LAST_ROAST_AT st)).
Proof. unfold roast_allowed. by destruct (PrimFloat.ltb _ _). Qed.

Lemma roast_allowed_false now chat_id st :
  fst (roast_allowed now chat_id st) = false → snd (roast_allowed now chat_id st) = st.
Proof. unfold roast_allowed. by destruct (PrimFloat.ltb _ _). Qed.

Lemma roast_allowed_history now chat_id st :
  CHAT_HISTORY (snd (roast_allowed now chat_id st)) = CHAT_HISTORY st.
Proof. unfold roast_allowed. by destruct (PrimFloat.ltb _ _). Qed.

Lemma roast_allowed_other_chat now chat_id st c :
  c ≠ chat_id →
  LAST_ROAST_AT (snd (roast_allowed now chat_id st)) !! c = LAST_ROAST_AT st !! c.
Proof.
  intros Hne. unfold roast_allowed. destruct (PrimFloat.ltb _ _); simpl; [done|].
  by rewrite lookup_insert_ne.
Qed.

(** A chat roasted when the clock read 500 s: refused 119.5 s later, allowed
    again 120 s later. *)
Example roast_allowed_cooldown :
  let st1 := snd (roast_allowed 500 7 initial_state) in
  fst (roast_allowed 500 7 initial_state) = true
  ∧ LAST_ROAST_AT st1 !! 7 = Some 500%float
  ∧ roast_allowed 619.5 7 st1 = (false, st1)
  ∧ fst (roast_allowed 620 7 st1) = true.
Proof. vm_compute. done. Qed.

(** C1. While the clock of the event loop reads less than 120 s, the first
    call for a chat that was never roasted is refused: with no record for
    the chat [roast_allowed] compares the clock with the default 0.0, so at
    60 s it returns false and records nothing. *)
Theorem roast_allowed_first_call_refused (chat_id : Z) (history : gmap Z (list pystr)) :
  LAST_ROAST_AT (mkState history ∅) !! chat_id = None
  ∧ roast_allowed 60 chat_id (mkState history ∅) = (false, mkState history ∅).
Proof.
  split; [apply lookup_empty|].
  unfold roast_allowed. simpl. by rewrite lookup_empty.
Qed.

(** ** Facts about the conversation context *)

Lemma length_deque_append d x :
  (length d <= 3)%nat → (length (deque_append 3 d x) <= 3)%nat.
Proof.
  intros Hd. unfold deque_append.
  destruct (Nat.ltb_spec 3 (length (d ++ [x]))) as [Hlt|Hle]; [|done].
  rewrite length_drop, length_app. simpl. lia.
Qed.

(** The deque keeps the last three of all the entries appended to it. *)
Lemma deque_append_last3 (l : list pystr) x :
  deque_append 3 (drop (length l - 3) l) x = drop (length (l ++ [x]) - 3) (l ++ [x]).
Proof.
  unfold deque_append. rewrite !length_app, length_drop. simpl.
  destruct (Nat.ltb_spec 3 (length l - (length l - 3) + 1)) as [Hlt|Hle].
  - rewrite drop_app_le by (rewrite length_drop; lia).
    rewrite drop_drop.
    rewrite drop_app_le by lia.
    do 2 f_equal. lia.
  - replace (length l - 3)%nat with 0%nat by lia.
    replace (length l + 1 - 3)%nat with 0%nat by lia. done.
Qed.

Lemma chat_context_history_append c e h c' :
  chat_context (history_append c e h) c'
  = if decide (c = c') then deque_append 3 (chat_context h c) e else chat_context h c'.
Proof.
  unfold chat_context, history_append, history_get.
  destruct (h !! c) as [d|] eqn:Hc; case_decide as Hcc; try subst c'; simpl.
  - by rewrite lookup_insert_eq.
  - by rewrite lookup_insert_ne.
  - by rewrite lookup_insert_eq.
  - by rewrite !lookup_insert_ne.
Qed.

(** Reading [CHAT_HISTORY[chat_id]] may store an empty deque under a new
    key; no chat's context changes by it. *)
Lemma chat_context_history_get c h c' :
  chat_context (snd (history_get c h)) c' = chat_context h c'.
Proof.
  unfold chat_context, history_get.
  destruct (h !! c) as [d|] eqn:Hc; simpl; [done|].
  destruct (decide (c = c')) as [<-|Hne].
  - by rewrite lookup_insert_eq, Hc.
  - by rewrite lookup_insert_ne.
Qed.

Lemma history_get_entries c h : fst (history_get c h) = chat_context h c.
Proof. unfold chat_context, history_get. by destruct (h !! c). Qed.

Lemma append_all_last3 appended chat_id :
  chat_context (append_all appended ∅) chat_id
  = drop (length (entries_of chat_id appended) - 3) (entries_of chat_id appended).
Proof.
  induction appended as [|[c e] appended IH] using rev_ind.
  - done.
  - unfold append_all in *. rewrite foldl_app. simpl.
    rewrite chat_context_history_append. unfold entries_of in *.
    rewrite filter_app, map_app.
    case_decide as Hc; simpl in Hc.
    + subst c. rewrite IH. rewrite filter_cons_True by done.
      rewrite filter_nil. simpl. apply deque_append_last3.
    + rewrite IH. rewrite filter_cons_False by done.
      rewrite filter_nil. simpl. by rewrite app_nil_r.
Qed.

Section BotFacts.

Variable lower : pystr -> pystr.
Variable ci_eq : char -> char -> bool.
Variable ROAST_LINES : list pystr.

(** What a call of [on_text] does to the context of any chat: nothing, or
    one append. *)
Lemma on_text_context env update st c :
  let h' := CHAT_HISTORY (fst (on_text lower ci_eq ROAST_LINES env update st)) in
  chat_context h' c = chat_context (CHAT_HISTORY st) c
  ∨ ∃ e, chat_context h' c = deque_append 3 (chat_context (CHAT_HISTORY st) c) e.
Proof.
  unfold on_text.
  destruct (message update) as [msg|]; [|by left].
  destruct (text msg) as [[|c0 raw]|]; [by left| |by left].
  destruct (is_group update); cbn [negb]; [|by left].
  destruct (chat msg) as [ch|]; [|by left].
  cbv zeta.
  set (entry := roast_candidate_name update ++ lit ": " ++ take 120 (normalize_text (c0 :: raw))).
  set (h1 := if negb (startswith [SLASH] (normalize_text (c0 :: raw)))
             then history_append (chat_ident ch) entry (CHAT_HISTORY st)
             else CHAT_HISTORY st).
  assert (chat_context h1 c = chat_context (CHAT_HISTORY st) c
          ∨ ∃ e, chat_context h1 c = deque_append 3 (chat_context (CHAT_HISTORY st) c) e)
    as Hh1.
  { subst h1. destruct (negb _); [|by left].
    rewrite chat_context_history_append. case_decide; [|by left].
    subst c. right. by eexists. }
  destruct (should_answer_with_llm _ _ _).
  - pose proof (chat_context_history_get (chat_ident ch) h1 c) as Hget.
    destruct (history_get (chat_ident ch) h1) as [entries h2]. simpl in Hget.
    cbv zeta. cbn beta iota.
    destruct (hf_generate (env_endpoint env) _) as [reply evs]. simpl. by rewrite Hget.
  - destruct (roast_probability _); [|done].
    pose proof (roast_allowed_history (env_now env) (chat_ident ch)
                  (mkState h1 (LAST_ROAST_AT st))) as Hroast.
    destruct (roast_allowed _ _ _) as [ok st2]. simpl in Hroast.
    cbn beta iota. destruct ok; simpl; by rewrite Hroast.
Qed.

Lemma run_bounded calls st c :
  (length (chat_context (CHAT_HISTORY st) c) <= 3)%nat →
  (length (chat_context (CHAT_HISTORY (run lower ci_eq ROAST_LINES calls st)) c) <= 3)%nat.
Proof.
  revert st. induction calls as [|[env update] calls IH]; intros st Hst; [done|].
  simpl. apply IH.
  destruct (on_text_context env update st c) as [-> | [e ->]]; [done|].
  by apply length_deque_append.
Qed.

(** C8. Whatever updates the handler serves from start-up on, no chat's
    ChatContext holds more than three entries; and after any sequence of
    appends a chat's context is the last three entries appended for that
    chat, in order, so the fourth append evicts the oldest entry. *)
Theorem chat_context_bounded (calls : list (Env * Update)) (appended : list (Z * pystr))
    (chat_id : Z) (a b c x : pystr) :
  (length (chat_context (CHAT_HISTORY (run lower ci_eq ROAST_LINES calls initial_state))
             chat_id) <= 3)%nat
  ∧ (length (chat_context (append_all appended ∅) chat_id) <= 3)%nat
  ∧ chat_context (append_all appended ∅) chat_id
    = drop (length (entries_of chat_id appended) - 3) (entries_of chat_id appended)
  ∧ deque_append 3 [a; b; c] x = [b; c; x].
Proof.
  split; [|split; [|split; [|done]]].
  - apply run_bounded. simpl. unfold chat_context. rewrite lookup_empty. simpl. lia.
  - rewrite append_all_last3, length_drop. lia.
  - apply append_all_last3.
Qed.

(** The handler past its guards, on a message of a group chat. *)
Lemma on_text_group env update st msg raw ch :
  message update = Some msg → text msg = Some raw → raw ≠ [] →
  chat msg = Some ch → is_group update = true →
  on_text lower ci_eq ROAST_LINES env update st =
    let chat_id := chat_ident ch in
    let bot_username := default [] (env_bot_username env) in
    let user_name := roast_candidate_name update in
    let txt := normalize_text raw in
    let history :=
      if negb (startswith [SLASH] txt)
      then history_append chat_id (user_name ++ lit ": " ++ take 120 txt) (CHAT_HISTORY st)
      else CHAT_HISTORY st in
    if should_answer_with_llm lower update bot_username then
      let '(entries, history') := history_get chat_id history in
      let prompt := build_prompt ci_eq txt entries bot_username in
      let '(reply, evs) := hf_generate (env_endpoint env) prompt in
      (mkState history' (LAST_ROAST_AT st), evs ++ [EvReply (postprocess reply)])
    else
      let st1 := mkState history (LAST_ROAST_AT st) in
      if roast_probability (env_randint env) then
        let '(ok, st2) := roast_allowed (env_now env) chat_id st1 in
        if ok
        then (st2, [EvReply (user_name ++ lit " " ++ roast_choice ROAST_LINES (env_choice env))])
        else (st2, [])
      else (st1, []).
Proof.
  intros Hmsg Htext Hraw Hchat Hgroup. unfold on_text.
  rewrite Hmsg, Htext, Hchat, Hgroup. by destruct raw.
Qed.

Lemma normalize_text_nil : normalize_text [] = [].
Proof. reflexivity. Qed.

(** C9 (as amended). A message of a group chat whose normalized text
    starts with a slash is not recorded: the ChatContext of every chat is
    as before. When it does not start with a bot command, the handler's
    filter lets it through and it is still classified: when it addresses
    the bot, the prompt is built from its text and the chat's context, the
    completion client is called and the reply is sent; when it does not, no
    completion request is made. When it starts with a bot command the
    filter keeps it from [on_text]: nothing changes and nothing is sent. *)
Theorem handle_update_command (env : Env) (update : Update) (st : State)
    (msg : Message) (raw : pystr) (ch : Chat) :
  message update = Some msg → text msg = Some raw → chat msg = Some ch →
  is_group update = true →
  startswith [SLASH] (normalize_text raw) = true →
  let bot_username := default [] (env_bot_username env) in
  let prompt :=
    build_prompt ci_eq (normalize_text raw)
      (chat_context (CHAT_HISTORY st) (chat_ident ch)) bot_username in
  let result := handle_update lower ci_eq ROAST_LINES env update st in
  (∀ c, chat_context (CHAT_HISTORY (fst result)) c = chat_context (CHAT_HISTORY st) c)
  ∧ (filters_COMMAND msg = false →
     result = on_text lower ci_eq ROAST_LINES env update st
     ∧ (should_answer_with_llm lower update bot_username = true →
        snd result =
          snd (hf_generate (env_endpoint env) prompt)
            ++ [EvReply (postprocess (fst (hf_generate (env_endpoint env) prompt)))])
     ∧ (should_answer_with_llm lower update bot_username = false →
        posts (snd result) = 0%nat))
  ∧ (filters_COMMAND msg = true → result = (st, [])).
Proof.
  intros Hmsg Htext Hchat Hgroup Hslash bot_username prompt result.
  assert (raw ≠ []) as Hraw.
  { intros ->. by rewrite normalize_text_nil in Hslash. }
  assert (handler_accepts update = negb (filters_COMMAND msg)) as Haccept.
  { unfold handler_accepts, filters_TEXT. rewrite Hmsg, Htext. by destruct raw. }
  subst result prompt. unfold handle_update. rewrite Haccept.
  destruct (filters_COMMAND msg); cbn [negb].
  { split; [done|]. split; [done|]. done. }
  rewrite (on_text_group env update st msg raw ch Hmsg Htext Hraw Hchat Hgroup).
  cbv zeta. rewrite Hslash. cbn [negb]. fold bot_username.
  destruct (should_answer_with_llm lower update bot_username).
  - pose proof (chat_context_history_get (chat_ident ch) (CHAT_HISTORY st)) as Hget.
    pose proof (history_get_entries (chat_ident ch) (CHAT_HISTORY st)) as Hentries.
    destruct (history_get (chat_ident ch) (CHAT_HISTORY st)) as [entries h2].
    simpl in Hget, Hentries. subst entries.
    destruct (hf_generate (env_endpoint env) _) as [reply evs]. simpl.
    split; [done|]. split; [|done]. intros _. split; [done|]. split; [done|]. intros [=].
  - split; [|split; [|done]].
    + intros c. destruct (roast_probability (env_randint env)); [|done].
      pose proof (roast_allowed_history (env_now env) (chat_ident ch)
                    (mkState (CHAT_HISTORY st) (LAST_ROAST_AT st))) as Hroast.
      destruct (roast_allowed _ _ _) as [ok st2]. simpl in Hroast.
      destruct ok; simpl; by rewrite Hroast.
    + intros _. split; [done|]. split; [intros [=]|intros _].
      destruct (roast_probability (env_randint env)); [|done].
      destruct (roast_allowed _ _ _) as [ok st2]. by destruct ok.
Qed.

End BotFacts.

(** A slash-prefixed message that is no bot command and mentions the bot:
    nothing is recorded, the completion endpoint is called and its answer
    is sent. *)
Lemma handle_update_command_witness :
  let env := sample_env endpoint_recovering in
  let prompt :=
    build_prompt ascii_ci_eq (normalize_text slash_text)
      (chat_context (CHAT_HISTORY initial_state) (-1001)) sophie in
  let result :=
    handle_update ascii_lower ascii_ci_eq [lit "is late again"] env slash_message
      initial_state in
  (∀ c, chat_context (CHAT_HISTORY (fst result)) c
        = chat_context (CHAT_HISTORY initial_state) c)
  ∧ snd result =
      snd (hf_generate endpoint_recovering prompt)
        ++ [EvReply (postprocess (fst (hf_generate endpoint_recovering prompt)))]
  ∧ handle_update ascii_lower ascii_ci_eq [lit "is late again"] env command_message
      initial_state = (initial_state, []).
Proof.
  intros env prompt result.
  destruct (handle_update_command ascii_lower ascii_ci_eq [lit "is late again"] env
              slash_message initial_state
              (mkMessage (Some slash_text) [mkEntity (lit "mention") 13 11]
                 (Some (mkChat (-1001) (lit "supergroup")))
                 (Some (mkUser (lit "Ann") (Some (lit "ann_92")))) None)
              slash_text (mkChat (-1001) (lit "supergroup")))
    as (Hctx & Hpass & _).
  - reflexivity.
  - reflexivity.
  - reflexivity.
  - reflexivity.
  - vm_compute. reflexivity.
  - destruct Hpass as (_ & Hllm & _); [reflexivity|].
    split; [exact Hctx|]. split; [apply Hllm; vm_compute; reflexivity|].
    destruct (handle_update_command ascii_lower ascii_ci_eq [lit "is late again"] env
                command_message initial_state
                (mkMessage (Some command_text)
                   [mkEntity (lit "bot_command") 0 4; mkEntity (lit "mention") 5 11]
                   (Some (mkChat (-1001) (lit "supergroup")))
                   (Some (mkUser (lit "Ann") (Some (lit "ann_92")))) None)
                command_text (mkChat (-1001) (lit "supergroup")))
      as (_ & _ & Hdrop).
    + reflexivity.
    + reflexivity.
    + reflexivity.
    + reflexivity.
    + vm_compute. reflexivity.
    + apply Hdrop. reflexivity.
Defined.

(** C9 (counterexample). The group message [command_message] reads
    "/ask @sophie_bot what is up?" and starts with a bot command: its
    normalized text starts with a slash and it mentions the bot, so
    [on_text] would answer it, but the filter given in [main] drops it: it is
    not classified, no completion request is made and nothing is sent. *)
Lemma command_message_not_classified :
  is_group command_message = true
  ∧ startswith [SLASH] (normalize_text command_text) = true
  ∧ should_answer_with_llm ascii_lower command_message sophie = true
  ∧ posts (snd (on_text ascii_lower ascii_ci_eq [lit "is late again"]
                  (sample_env endpoint_recovering) command_message initial_state)) = 3%nat
  ∧ handler_accepts command_message = false
  ∧ handle_update ascii_lower ascii_ci_eq [lit "is late again"]
      (sample_env endpoint_recovering) command_message initial_state
    = (initial_state, []).
Proof. vm_compute. done. Qed.

(** Reading the context of a chat that has none yet stores an empty deque
    for it: the store gains a key, the chat's context stays empty. *)
Example handle_update_slash_store :
  CHAT_HISTORY
    (fst (handle_update ascii_lower ascii_ci_eq [lit "is late again"]
            (sample_env endpoint_recovering) slash_message initial_state))
  = {[ (-1001) := [] ]}.
Proof. vm_compute. reflexivity. Qed.

Example handle_update_slash_trace :
  snd (handle_update ascii_lower ascii_ci_eq [lit "is late again"]
         (sample_env endpoint_recovering) slash_message initial_state)
  = let prompt := build_prompt ascii_ci_eq slash_text [] sophie in
    [EvPost prompt; EvSleep (backoff 0); EvPost prompt; EvSleep (backoff 1); EvPost prompt;
     EvReply (lit "Hello there.")].
Proof. vm_compute. reflexivity. Qed.

(** ** Facts about reply post-processing *)

Lemma lstrip_nil_iff s : lstrip s = [] ↔ Forall (λ c, is_space c = true) s.
Proof.
  induction s as [|c s IH]; simpl.
  - split; [constructor|done].
  - destruct (is_space c) eqn:Hc.
    + rewrite IH. split; [by constructor|by inversion 1].
    + split; [done|]. inversion 1; congruence.
Qed.

Lemma lstrip_suffix s : lstrip s `suffix_of` s.
Proof.
  induction s as [|c s IH]; simpl; [done|].
  destruct (is_space c); [by apply suffix_cons_r|done].
Qed.

(** [strip] yields the empty string exactly on the empty and the
    whitespace-only strings. *)
Lemma strip_nil_iff s : strip s = [] ↔ Forall (λ c, is_space c = true) s.
Proof.
  unfold strip, rstrip. split.
  - intros H. apply (f_equal (@rev char)) in H. rewrite rev_involutive in H. simpl in H.
    apply lstrip_nil_iff in H. apply lstrip_nil_iff.
    destruct (lstrip s) as [|c l] eqn:Hl; [done|].
    assert (is_space c = false) as Hc.
    { clear H. induction s as [|a s IH]; simpl in Hl; [done|].
      destruct (is_space a) eqn:Ha; [by apply IH|]. by injection Hl as <- _. }
    apply Forall_rev in H. rewrite rev_involutive in H. inversion H; congruence.
  - intros H. apply lstrip_nil_iff in H. by rewrite H.
Qed.

Lemma before_last_Some sep s head :
  before_last sep s = Some head → ∃ tail, s = head ++ sep :: tail ∧ sep ∉ tail.
Proof.
  revert head. induction s as [|c s IH]; intros head; simpl; [done|].
  destruct (before_last sep s) as [h|] eqn:Hs.
  - intros [= <-]. destruct (IH h eq_refl) as (tail & -> & Hnot). by exists tail.
  - unfold char_eqb. destruct (N.eqb_spec c sep) as [->|Hne]; [|done].
    intros [= <-]. exists s. split; [done|].
    clear IH. induction s as [|a s IH]; [by apply not_elem_of_nil|].
    simpl in Hs. destruct (before_last sep s); [done|].
    unfold char_eqb in Hs. destruct (N.eqb_spec a sep); [done|].
    apply not_elem_of_cons. split; [congruence|by apply IH].
Qed.

Lemma before_last_None sep s : before_last sep s = None → sep ∉ s.
Proof.
  induction s as [|c s IH]; simpl; [intros _; apply not_elem_of_nil|].
  destruct (before_last sep s); [done|].
  unfold char_eqb. destruct (N.eqb_spec c sep); [done|].
  intros _. apply not_elem_of_cons. split; [congruence|by apply IH].
Qed.

Lemma length_rsplit1_head sep s : (length (rsplit1_head sep s) <= length s)%nat.
Proof.
  unfold rsplit1_head. destruct (before_last sep s) as [head|] eqn:H; [|done].
  apply before_last_Some in H as (tail & -> & _). rewrite length_app. lia.
Qed.

(** C6 (as amended). After the completion client returns, an empty or
    whitespace-only reply is replaced with the fixed clarifying prompt; a
    reply that is longer than 3500 characters once trimmed is cut just
    before the last space character (U+0020) of its first 3500 characters,
    or after all 3500 when they hold no space, and an ellipsis is added;
    the reply sent never exceeds 3501 characters. *)
Theorem postprocess_correct (reply : pystr) :
  (Forall (λ c, is_space c = true) reply → postprocess reply = CLARIFY)
  ∧ (¬ Forall (λ c, is_space c = true) reply → (length (strip reply) <= 3500)%nat →
     postprocess reply = strip reply)
  ∧ ((3500 < length (strip reply))%nat →
     (∃ head tail,
        take 3500 (strip reply) = head ++ SPACE :: tail ∧ (SPACE ∉ tail)
        ∧ postprocess reply = head ++ [ELLIPSIS])
     ∨ ((SPACE ∉ take 3500 (strip reply))
        ∧ postprocess reply = take 3500 (strip reply) ++ [ELLIPSIS]))
  ∧ (length (postprocess reply) <= 3501)%nat.
Proof.
  unfold postprocess.
  split; [|split; [|split]].
  - intros Hws. apply strip_nil_iff in Hws. by rewrite Hws.
  - intros Hws Hlen. rewrite <- strip_nil_iff in Hws.
    destruct (strip reply) as [|c r] eqn:Hr; [done|]. cbn [is_empty].
    by destruct (Nat.ltb_spec 3500 (length (c :: r))); [lia|].
  - intros Hlen. destruct (strip reply) as [|c r] eqn:Hr; [simpl in Hlen; lia|].
    cbn [is_empty]. destruct (Nat.ltb_spec 3500 (length (c :: r))); [|lia].
    unfold rsplit1_head.
    destruct (before_last SPACE (take 3500 (c :: r))) as [head|] eqn:Hb.
    + left. apply before_last_Some in Hb as (tail & Heq & Hnot). by exists head, tail.
    + right. by apply before_last_None in Hb.
  - destruct (strip reply) as [|c r] eqn:Hr; cbn [is_empty].
    + vm_compute. lia.
    + destruct (Nat.ltb_spec 3500 (length (c :: r))); [|lia].
      rewrite length_app. simpl length at 2.
      pose proof (length_rsplit1_head SPACE (take 3500 (c :: r))) as Hh.
      rewrite length_take in Hh. lia.
Qed.

Lemma postprocess_correct_witness :
  postprocess (lit "  ") = CLARIFY
  ∧ ((∃ head tail,
        take 3500 (strip reply_4000) = head ++ SPACE :: tail ∧ (SPACE ∉ tail)
        ∧ postprocess reply_4000 = head ++ [ELLIPSIS])
     ∨ ((SPACE ∉ take 3500 (strip reply_4000))
        ∧ postprocess reply_4000 = take 3500 (strip reply_4000) ++ [ELLIPSIS]))
  ∧ (length (postprocess reply_4000) <= 3501)%nat.
Proof.
  split; [|split].
  - apply (postprocess_correct (lit "  ")). by repeat constructor.
  - apply (postprocess_correct reply_4000). apply Nat.ltb_lt. vm_compute. reflexivity.
  - apply (postprocess_correct reply_4000).
Defined.

(** A 4000-character reply of five-character words is cut after the 699th
    word: 3499 characters and the ellipsis. *)
Example postprocess_4000 :
  postprocess reply_4000 = take 3499 reply_4000 ++ [ELLIPSIS]
  ∧ length (postprocess reply_4000) = 3500%nat.
Proof. vm_compute. done. Qed.

(** C6 (counterexample). The reply [reply_two_lines] has 3501 characters
    and a line break after the first; [on_text] does not cut it at that
    whitespace but after 3500 characters, inside the second line, because
    only the space character is a cut point. *)
Lemma postprocess_ignores_line_break :
  (3500 <? length (strip reply_two_lines))%nat = true
  ∧ reply_two_lines !! 1%nat = Some NEWLINE ∧ is_space NEWLINE = true
  ∧ truncate_at_whitespace 3500 (strip reply_two_lines) = lit "a" ++ [ELLIPSIS]
  ∧ postprocess reply_two_lines = take 3500 reply_two_lines ++ [ELLIPSIS]
  ∧ postprocess reply_two_lines ≠ truncate_at_whitespace 3500 (strip reply_two_lines).
Proof.
  split; [by vm_compute|]. split; [done|]. split; [done|].
  split; [by vm_compute|]. split; [by vm_compute|].
  intros H. apply (f_equal length) in H. vm_compute in H. discriminate.
Qed.

(** ** Facts about the prompt builder *)

Section MentionFacts.

Variable ci_eq : char -> char -> bool.


(** The scan keeps exactly the characters it does not mark. *)
Lemma sub_scan_marks pat s k :
  sub_scan ci_eq pat k s = keep_unmarked (scan_marks ci_eq pat k s) s.
Proof.
  revert k. induction s as [|c s IH]; intros k; [done|].
  cbn [sub_scan scan_marks]. destruct k as [|k].
  - destruct (match_here ci_eq pat (c :: s)); cbn [keep_unmarked]; by rewrite IH.
  - cbn [keep_unmarked]. by rewrite IH.
Qed.

Lemma length_scan_marks pat s k : length (scan_marks ci_eq pat k s) = length s.
Proof.
  revert k. induction s as [|c s IH]; intros k; [done|].
  cbn [scan_marks]. destruct k as [|k].
  - destruct (match_here ci_eq pat (c :: s)); simpl; by rewrite IH.
  - simpl. by rewrite IH.
Qed.

(** Whatever the state of the scan, the first character of an occurrence
    is dropped. *)
Lemma scan_marks_start p pat s k i :
  occurs_at ci_eq (p :: pat) s i = true → scan_marks ci_eq (p :: pat) k s !! i = Some true.
Proof.
  unfold occurs_at. revert k i. induction s as [|c s IH]; intros k i.
  - by rewrite drop_nil.
  - destruct i as [|i].
    + rewrite drop_0. intros Hm. cbn [scan_marks].
      destruct k; [by rewrite Hm|done].
    + intros Hm. cbn [scan_marks]. simpl in Hm.
      destruct k as [|k]; [destruct (match_here ci_eq (p :: pat) (c :: s))|]; by apply IH.
Qed.

Lemma match_here_lookup pat s t p :
  match_here ci_eq pat s = true → pat !! t = Some p →
  ∃ c, s !! t = Some c ∧ ci_eq p c = true.
Proof.
  revert s t. induction pat as [|q pat IH]; intros s t; [done|].
  destruct s as [|c s]; [done|]. simpl.
  intros [Hq Hrest]%andb_prop. destruct t as [|t]; simpl.
  - intros [= <-]. by exists c.
  - by apply IH.
Qed.

(** Two occurrences of a plain handle's mention cannot overlap. *)
Lemma occurrences_apart handle s i i' :
  handle_plain ci_eq handle →
  occurs_at ci_eq (AT_SIGN :: handle) s i = true →
  (i < i')%nat → (i' < i + S (length handle))%nat →
  occurs_at ci_eq (AT_SIGN :: handle) s i' = false.
Proof.
  intros Hplain Hi Hlt Hin. unfold occurs_at in *.
  destruct (match_here ci_eq (AT_SIGN :: handle) (drop i' s)) eqn:Hi'; [exfalso|done].
  destruct (lookup_lt_is_Some_2 handle (i' - i - 1)) as [p Hp]; [lia|].
  destruct (match_here_lookup _ _ (S (i' - i - 1)) p Hi Hp) as (c & Hc & Hpc).
  destruct (match_here_lookup _ _ 0%nat AT_SIGN Hi' eq_refl) as (c' & Hc' & Hat).
  rewrite lookup_drop in Hc, Hc'.
  replace (i + S (i' - i - 1))%nat with i' in Hc by lia.
  replace (i' + 0)%nat with i' in Hc' by lia.
  assert (c' = c) as -> by congruence.
  pose proof (Hplain c Hat) as Hall.
  rewrite Forall_forall in Hall.
  assert (ci_eq p c = false) as Hfalse.
  { apply Hall. by eapply list_elem_of_lookup_2. }
  congruence.
Qed.

Lemma in_occurrence_true pat s j :
  in_occurrence ci_eq pat s j = true
  ↔ ∃ i, (i <= j)%nat ∧ (j < i + length pat)%nat ∧ occurs_at ci_eq pat s i = true.
Proof.
  unfold in_occurrence. rewrite existsb_exists. split.
  - intros (i & Hin & [Hlt Hocc]%andb_prop).
    apply in_seq in Hin. apply Nat.ltb_lt in Hlt. exists i. split; [lia|done].
  - intros (i & Hle & Hlt & Hocc). exists i. split; [apply in_seq; lia|].
    apply andb_true_intro. split; [by apply Nat.ltb_lt|done].
Qed.

Lemma sub_scan_in_occurrence handle suf pre k :
  handle_plain ci_eq handle →
  scan_inv ci_eq (AT_SIGN :: handle) (pre ++ suf) (length pre) k →
  sub_scan ci_eq (AT_SIGN :: handle) k suf
  = keep_unmarked
      (map (in_occurrence ci_eq (AT_SIGN :: handle) (pre ++ suf)) (seq (length pre) (length suf)))
      suf.
Proof.
  intros Hplain. revert pre k. induction suf as [|c rest IH]; intros pre k Hinv; [done|].
  set (pat := AT_SIGN :: handle) in *.
  assert (occurs_at ci_eq pat (pre ++ c :: rest) (length pre) = match_here ci_eq pat (c :: rest)) as Hhere.
  { unfold occurs_at. by rewrite drop_app_length. }
  specialize (IH (pre ++ [c])).
  rewrite <- app_assoc, length_app in IH. simpl in IH.
  replace (length pre + 1)%nat with (S (length pre)) in IH by lia.
  cbn [length seq map sub_scan].
  destruct Hinv as [[-> Hnone] | (Hk & Hkn & start & Hstart & Hocc)].
  - destruct (match_here ci_eq pat (c :: rest)) eqn:Hm.
    + assert (in_occurrence ci_eq pat (pre ++ c :: rest) (length pre) = true) as ->.
      { apply in_occurrence_true. exists (length pre). split; [lia|].
        split; [simpl; lia|]. by rewrite Hhere. }
      cbn [keep_unmarked]. apply IH.
      destruct (decide (length pat - 1 = 0)%nat) as [Hz|Hnz].
      * left. split; [done|]. intros i Hi Hj. simpl in Hz, Hj. lia.
      * right. split; [lia|]. split; [simpl; lia|].
        exists (length pre). split; [simpl in *; lia|]. by rewrite Hhere.
    + assert (in_occurrence ci_eq pat (pre ++ c :: rest) (length pre) = false) as ->.
      { apply not_true_is_false. intros (i & Hle & Hlt & Hi)%in_occurrence_true.
        destruct (decide (i = length pre)) as [->|Hne]; [congruence|].
        rewrite Hnone in Hi by lia. done. }
      cbn [keep_unmarked]. f_equal. apply IH.
      left. split; [done|]. intros i Hi Hj.
      destruct (decide (i = length pre)) as [->|Hne]; [congruence|].
      apply Hnone; lia.
  - destruct k as [|k]; [lia|].
    assert (in_occurrence ci_eq pat (pre ++ c :: rest) (length pre) = true) as ->.
    { apply in_occurrence_true. exists start. split; [lia|]. split; [lia|done]. }
    cbn [keep_unmarked]. apply IH.
    destruct k as [|k].
    + left. split; [done|]. intros i Hi Hj.
      apply (occurrences_apart handle _ start i Hplain Hocc); simpl in *; lia.
    + right. split; [lia|]. split; [lia|]. exists start. split; [lia|done].
Qed.

Lemma strip_mentions_plain handle s :
  handle_plain ci_eq handle →
  strip_mentions ci_eq handle s
  = keep_unmarked (map (in_occurrence ci_eq (AT_SIGN :: handle) s) (seq 0 (length s))) s.
Proof.
  intros Hplain. unfold strip_mentions.
  apply (sub_scan_in_occurrence handle s [] 0%nat Hplain).
  left. split; [done|]. intros i Hi. simpl in Hi. lia.
Qed.

(** With an empty handle the pattern is the at sign alone. *)
Lemma strip_mentions_empty s :
  strip_mentions ci_eq [] s = filter (λ c, ci_eq AT_SIGN c = false) s.
Proof.
  unfold strip_mentions.
  induction s as [|c s IH]; [done|].
  cbn [sub_scan match_here length]. rewrite andb_true_r.
  destruct (ci_eq AT_SIGN c) eqn:Hc.
  - rewrite filter_cons_False by congruence. exact IH.
  - rewrite filter_cons_True by done. by rewrite IH.
Qed.

End MentionFacts.

Lemma elem_of_rev (x : char) (l : pystr) : x ∈ rev l ↔ x ∈ l.
Proof. rewrite !list_elem_of_In. symmetry. apply in_rev. Qed.

(** Trimming adds no character. *)
Lemma elem_of_strip (x : char) (s : pystr) : x ∈ strip s → x ∈ s.
Proof.
  unfold strip, rstrip. intros H.
  apply (proj1 (elem_of_rev _ _)) in H.
  apply (elem_of_suffix _ (rev (lstrip s))) in H; [|apply lstrip_suffix].
  apply (proj1 (elem_of_rev _ _)) in H.
  by apply (elem_of_suffix _ s) in H; [|apply lstrip_suffix].
Qed.

Lemma ascii_ci_eq_at c : ascii_ci_eq AT_SIGN c = true → c = AT_SIGN.
Proof.
  unfold ascii_ci_eq, char_eqb, ascii_lower_char, AT_SIGN.
  change ((65 <=? 64)%N && (64 <=? 90)%N) with false. cbv iota.
  destruct ((65 <=? c)%N && (c <=? 90)%N) eqn:Hc; intros H%N.eqb_eq; [|done].
  apply andb_prop in Hc as [H1%N.leb_le H2]. lia.
Qed.

Lemma match_here_Forall2 (ci_eq : char -> char -> bool) (pat s : pystr) :
  match_here ci_eq pat s = true
  ↔ Forall2 (λ p c, ci_eq p c = true) pat (take (length pat) s).
Proof.
  revert s. induction pat as [|p pat IH]; intros s; simpl.
  - split; [constructor|done].
  - destruct s as [|c s]; simpl.
    + split; [done|]. inversion 1.
    + rewrite andb_true_iff, IH. split.
      * intros [Hp Hrest]. by constructor.
      * inversion 1; subst. done.
Qed.

Lemma occurs_at_mention_at (ci_eq : char -> char -> bool) (pat s : pystr) (i : nat) :
  occurs_at ci_eq pat s i = true ↔ mention_at ci_eq pat s i.
Proof. apply match_here_Forall2. Qed.

Lemma mention_at_bound (ci_eq : char -> char -> bool) (pat s : pystr) (i : nat) :
  mention_at ci_eq pat s i → (i + length pat <= length s)%nat ∨ pat = [].
Proof.
  intros H%Forall2_length. rewrite length_take, length_drop in H.
  destruct pat; [by right|]. left. cbn [length] in *. lia.
Qed.

Lemma lookup_map_seq {A} (f : nat → A) (start n j : nat) :
  map f (seq start n) !! j = if (j <? n)%nat then Some (f (start + j)%nat) else None.
Proof.
  revert start j. induction n as [|n IH]; intros start j; [done|].
  destruct j as [|j]; simpl.
  - f_equal. f_equal. lia.
  - rewrite IH. replace (S start + j)%nat with (start + S j)%nat by lia. done.
Qed.

(** For a plain handle the scan marks exactly the positions that lie in
    an occurrence. *)
Lemma scan_marks_in_occurrence (ci_eq : char -> char -> bool) handle suf pre k :
  handle_plain ci_eq handle →
  scan_inv ci_eq (AT_SIGN :: handle) (pre ++ suf) (length pre) k →
  scan_marks ci_eq (AT_SIGN :: handle) k suf
  = map (in_occurrence ci_eq (AT_SIGN :: handle) (pre ++ suf)) (seq (length pre) (length suf)).
Proof.
  intros Hplain. revert pre k. induction suf as [|c rest IH]; intros pre k Hinv; [done|].
  set (pat := AT_SIGN :: handle) in *.
  assert (occurs_at ci_eq pat (pre ++ c :: rest) (length pre) = match_here ci_eq pat (c :: rest))
    as Hhere.
  { unfold occurs_at. by rewrite drop_app_length. }
  specialize (IH (pre ++ [c])).
  rewrite <- app_assoc, length_app in IH. simpl in IH.
  replace (length pre + 1)%nat with (S (length pre)) in IH by lia.
  cbn [length seq map scan_marks].
  destruct Hinv as [[-> Hnone] | (Hk & Hkn & start & Hstart & Hocc)].
  - destruct (match_here ci_eq pat (c :: rest)) eqn:Hm.
    + assert (in_occurrence ci_eq pat (pre ++ c :: rest) (length pre) = true) as ->.
      { apply in_occurrence_true. exists (length pre). split; [lia|].
        split; [simpl; lia|]. by rewrite Hhere. }
      f_equal. apply IH.
      destruct (decide (length pat - 1 = 0)%nat) as [Hz|Hnz].
      * left. split; [done|]. intros i Hi Hj. simpl in Hz, Hj. lia.
      * right. split; [lia|]. split; [simpl; lia|].
        exists (length pre). split; [simpl in *; lia|]. by rewrite Hhere.
    + assert (in_occurrence ci_eq pat (pre ++ c :: rest) (length pre) = false) as ->.
      { apply not_true_is_false. intros (i & Hle & Hlt & Hi)%in_occurrence_true.
        destruct (decide (i = length pre)) as [->|Hne]; [congruence|].
        rewrite Hnone in Hi by lia. done. }
      f_equal. apply IH.
      left. split; [done|]. intros i Hi Hj.
      destruct (decide (i = length pre)) as [->|Hne]; [congruence|].
      apply Hnone; lia.
  - destruct k as [|k]; [lia|].
    assert (in_occurrence ci_eq pat (pre ++ c :: rest) (length pre) = true) as ->.
    { apply in_occurrence_true. exists start. split; [lia|]. split; [lia|done]. }
    f_equal. apply IH.
    destruct k as [|k].
    + left. split; [done|]. intros i Hi Hj.
      apply (occurrences_apart ci_eq handle _ start i Hplain Hocc); simpl in *; lia.
    + right. split; [lia|]. split; [lia|]. exists start. split; [lia|done].
Qed.

Section PromptFacts.

Variable lower : pystr -> pystr.
Variable ci_eq : char -> char -> bool.

(** C7 (as amended). [build_prompt] embeds in the prompt the user text
    with the bot's mentions deleted in one pass from left to right, trimmed
    and cut to 800 characters, and the last two entries of the chat's
    context. The pass deletes characters of the user text and keeps the
    others in order: it deletes the at sign of every case-insensitive
    occurrence of the mention in the user text, and for a handle that holds
    no at sign (every Telegram username) it deletes exactly the characters
    that lie in such an occurrence, so each occurrence goes whole and
    nothing else goes. The result is not scanned again. *)
Theorem build_prompt_correct (user_text : pystr) (history : list pystr)
    (bot_username : pystr) :
  let mention := AT_SIGN :: bot_username in
  let removed := strip_mentions ci_eq bot_username user_text in
  let cleaned := cleaned_text ci_eq user_text bot_username in
  (∃ marks : list bool,
     length marks = length user_text
     ∧ removed = keep_unmarked marks user_text
     ∧ (∀ i, mention_at ci_eq mention user_text i → marks !! i = Some true)
     ∧ (handle_plain ci_eq bot_username →
        ∀ j, marks !! j = Some true
             ↔ ∃ i, (i <= j)%nat ∧ (j < i + length mention)%nat
                    ∧ mention_at ci_eq mention user_text i))
  ∧ cleaned = take 800 (strip removed)
  ∧ (length cleaned <= 800)%nat
  ∧ build_prompt ci_eq user_text history bot_username
    = lit "You are a bot in a telegram groupchat. Reply in 1-4 sentences and be helpful and clear"
      ++ [NEWLINE; NEWLINE] ++ lit "Recent chat context:" ++ [NEWLINE]
      ++ join [NEWLINE] (map (λ h, lit "- " ++ h) (context_entries history))
      ++ [NEWLINE; NEWLINE] ++ lit "The user is addressing you directly and asked:"
      ++ [NEWLINE] ++ cleaned ++ [NEWLINE; NEWLINE] ++ lit "Reply:"
  ∧ context_entries history `suffix_of` history
  ∧ (length (context_entries history) <= 2)%nat
  ∧ ((2 <= length history)%nat → length (context_entries history) = 2%nat).
Proof.
  intros mention removed cleaned.
  split; [|split; [|split; [|split; [|split; [|split]]]]].
  - exists (scan_marks ci_eq mention 0 user_text).
    split; [apply length_scan_marks|]. split; [apply sub_scan_marks|].
    split.
    + intros i Hi%occurs_at_mention_at. by apply scan_marks_start.
    + intros Hplain j. subst mention.
      rewrite (scan_marks_in_occurrence ci_eq bot_username user_text [] 0%nat Hplain)
        by (left; split; [done|]; intros i Hi; simpl in Hi; lia).
      cbn [app length]. rewrite lookup_map_seq. cbn [Nat.add].
      destruct (Nat.ltb_spec j (length user_text)) as [Hlt|Hge].
      * split.
        -- intros [= Hin]. apply in_occurrence_true in Hin as (i & Hle & Hj & Hi).
           exists i. by rewrite <- occurs_at_mention_at.
        -- intros (i & Hle & Hj & Hi). f_equal. apply in_occurrence_true.
           exists i. by rewrite occurs_at_mention_at.
      * split; [done|]. intros (i & Hle & Hj & Hi).
        destruct (mention_at_bound ci_eq _ user_text i Hi) as [Hb|Hb]; [|done].
        cbn [length] in Hb. lia.
  - done.
  - subst cleaned. unfold cleaned_text. rewrite length_take. lia.
  - done.
  - apply suffix_drop.
  - unfold context_entries. rewrite length_drop. lia.
  - intros Hlen. unfold context_entries. rewrite length_drop. lia.
Qed.

(** C10. With the empty string for the bot's username the mention check
    of [should_answer_with_llm] never fires, so a message is answered only
    as a reply to the bot; and the pattern of [build_prompt] is the at sign
    alone, so the cleaned text has every at sign of the user text removed,
    whatever follows it. *)
Theorem empty_username (update : Update) (msg_text user_text : pystr) :
  ci_eq AT_SIGN AT_SIGN = true →
  mention_trigger lower msg_text [] = false
  ∧ (should_answer_with_llm lower update [] = true →
     ∃ msg, message update = Some msg ∧ reply_trigger msg [] = true)
  ∧ strip_mentions ci_eq [] user_text = sub_scan ci_eq [AT_SIGN] 0 user_text
  ∧ strip_mentions ci_eq [] user_text = filter (λ c, ci_eq AT_SIGN c = false) user_text
  ∧ (AT_SIGN ∉ strip_mentions ci_eq [] user_text)
  ∧ (AT_SIGN ∉ cleaned_text ci_eq user_text []).
Proof.
  intros Hat.
  assert (AT_SIGN ∉ strip_mentions ci_eq [] user_text) as Hnot.
  { rewrite strip_mentions_empty. intros [Hc _]%list_elem_of_filter. congruence. }
  split; [done|]. split; [|split; [done|split; [apply strip_mentions_empty|split; [done|]]]].
  - unfold should_answer_with_llm.
    destruct (message update) as [msg|]; [|done].
    destruct (text msg) as [[|c t]|]; [done| |done].
    cbn [mention_trigger is_empty negb andb].
    destruct (reply_trigger msg []) eqn:Hr; [|done]. intros _. by exists msg.
  - unfold cleaned_text. intros Hin. apply Hnot.
    apply elem_of_strip. eapply elem_of_sublist; [exact Hin|apply sublist_take].
Qed.

End PromptFacts.

Lemma ascii_handle_plain : handle_plain ascii_ci_eq sophie.
Proof. intros c ->%ascii_ci_eq_at. by repeat constructor. Qed.

Lemma build_prompt_correct_witness :
  (∃ marks : list bool,
     strip_mentions ascii_ci_eq sophie (lit "hi @SOPHIE_BOT, and @sophie_bot!")
     = keep_unmarked marks (lit "hi @SOPHIE_BOT, and @sophie_bot!")
     ∧ marks !! 3%nat = Some true ∧ marks !! 13%nat = Some true
     ∧ marks !! 20%nat = Some true ∧ marks !! 30%nat = Some true)
  ∧ strip_mentions ascii_ci_eq sophie (lit "hi @SOPHIE_BOT, and @sophie_bot!")
    = lit "hi , and !"
  ∧ length (context_entries [lit "Ann: one"; lit "Bob: two"; lit "Ann: three"]) = 2%nat.
Proof.
  pose proof (build_prompt_correct ascii_ci_eq (lit "hi @SOPHIE_BOT, and @sophie_bot!")
                [lit "Ann: one"; lit "Bob: two"; lit "Ann: three"] sophie) as H.
  cbv zeta in H.
  destruct H as ((marks & _ & Hkeep & Hat & Hplain) & _ & _ & _ & _ & _ & Htwo).
  assert (mention_at ascii_ci_eq (AT_SIGN :: sophie)
            (lit "hi @SOPHIE_BOT, and @sophie_bot!") 3) as H3.
  { unfold mention_at. vm_compute. repeat constructor. }
  assert (mention_at ascii_ci_eq (AT_SIGN :: sophie)
            (lit "hi @SOPHIE_BOT, and @sophie_bot!") 20) as H20.
  { unfold mention_at. vm_compute. repeat constructor. }
  split; [|split; [by vm_compute|apply Htwo; simpl; lia]].
  exists marks. split; [exact Hkeep|].
  split; [by apply Hat|].
  split; [apply (Hplain ascii_handle_plain); exists 3%nat;
          split; [lia|split; [simpl; lia|exact H3]]|].
  split; [by apply Hat|].
  apply (Hplain ascii_handle_plain). exists 20%nat.
  split; [lia|split; [simpl; lia|exact H20]].
Defined.

(** C7 (counterexample). With the handle "bot" the user text "@b@botot"
    holds one mention, from its third character on; deleting it joins "@b"
    and "ot", and the cleaned text that goes into the prompt is "@bot": it
    still holds the mention. *)
Lemma cleaned_text_spliced_mention :
  handle_plain ascii_ci_eq (lit "bot")
  ∧ mention_at ascii_ci_eq (AT_SIGN :: lit "bot") (lit "@b@botot") 2
  ∧ cleaned_text ascii_ci_eq (lit "@b@botot") (lit "bot") = lit "@bot"
  ∧ mention_at ascii_ci_eq (AT_SIGN :: lit "bot")
      (cleaned_text ascii_ci_eq (lit "@b@botot") (lit "bot")) 0.
Proof.
  split; [intros c ->%ascii_ci_eq_at; by repeat constructor|].
  split; [unfold mention_at; vm_compute; repeat constructor|].
  split; [by vm_compute|].
  unfold mention_at. vm_compute. repeat constructor.
Qed.

Example build_prompt_ex :
  build_prompt ascii_ci_eq (lit "hi @SOPHIE_BOT, and @sophie_bot! ")
    [lit "Ann: one"; lit "Bob: two"; lit "Ann: three"] sophie
  = lit "You are a bot in a telegram groupchat. Reply in 1-4 sentences and be helpful and clear"
    ++ [NEWLINE; NEWLINE] ++ lit "Recent chat context:" ++ [NEWLINE]
    ++ lit "- Bob: two" ++ [NEWLINE] ++ lit "- Ann: three"
    ++ [NEWLINE; NEWLINE] ++ lit "The user is addressing you directly and asked:"
    ++ [NEWLINE] ++ lit "hi , and !" ++ [NEWLINE; NEWLINE] ++ lit "Reply:".
Proof. vm_compute. reflexivity. Qed.

Lemma empty_username_witness :
  mention_trigger ascii_lower (lit "hello @") [] = false
  ∧ strip_mentions ascii_ci_eq [] (lit "mail bob@example.org or @ann")
    = filter (λ c, ascii_ci_eq AT_SIGN c = false) (lit "mail bob@example.org or @ann")
  ∧ AT_SIGN ∉ cleaned_text ascii_ci_eq (lit "mail bob@example.org or @ann") [].
Proof.
  destruct (empty_username ascii_lower ascii_ci_eq (group_message (lit "hello @") [])
              (lit "hello @") (lit "mail bob@example.org or @ann"))
    as (Hmention & _ & _ & Hfilter & _ & Hclean).
  - reflexivity.
  - split; [exact Hmention|]. split; [exact Hfilter|exact Hclean].
Defined.

(** With the empty username an address loses its at sign too. *)
Example cleaned_text_empty_username :
  cleaned_text ascii_ci_eq (lit "mail bob@example.org or @ann") []
  = lit "mail bobexample.org or ann".
Proof. vm_compute. reflexivity. Qed.

(** ** Further facts: trimming and normalization *)

Lemma lstrip_no_lead s : no_lead (lstrip s).
Proof.
  induction s as [|c s IH]; simpl; [done|].
  by destruct (is_space c) eqn:Hc.
Qed.

Lemma lstrip_id s : no_lead s → lstrip s = s.
Proof. destruct s as [|c s]; simpl; [done|]. by intros ->. Qed.

(** What [lstrip] drops is whitespace. *)
Lemma lstrip_split s :
  ∃ ws, s = ws ++ lstrip s ∧ Forall (λ c, is_space c = true) ws.
Proof.
  induction s as [|c s (ws & Hs & Hws)]; simpl.
  - by exists [].
  - destruct (is_space c) eqn:Hc.
    + exists (c :: ws). split; [by rewrite <- app_comm_cons, <- Hs|by constructor].
    + by exists [].
Qed.

Lemma rstrip_split s :
  ∃ ws, s = rstrip s ++ ws ∧ Forall (λ c, is_space c = true) ws.
Proof.
  unfold rstrip. destruct (lstrip_split (rev s)) as (ws & Hs & Hws).
  exists (rev ws). split.
  - rewrite <- rev_app_distr, <- Hs. by rewrite rev_involutive.
  - by apply Forall_rev.
Qed.

Lemma rstrip_no_trail s : no_trail (rstrip s).
Proof. unfold no_trail, rstrip. rewrite rev_involutive. apply lstrip_no_lead. Qed.

(** Trimming on the right keeps a first character that is no whitespace. *)
Lemma rstrip_head c s :
  is_space c = false → ∃ s', rstrip (c :: s) = c :: s'.
Proof.
  intros Hc. destruct (rstrip_split (c :: s)) as (ws & Hs & Hws).
  destruct (rstrip (c :: s)) as [|c' s'] eqn:Hr.
  - simpl in Hs. subst ws. inversion Hws; congruence.
  - injection Hs as <- _. by exists s'.
Qed.

Lemma rstrip_no_lead s : no_lead s → no_lead (rstrip s).
Proof.
  destruct s as [|c s]; [done|]. simpl. intros Hc.
  destruct (rstrip_head c s Hc) as (s' & ->). done.
Qed.

Lemma strip_no_lead s : no_lead (strip s).
Proof. apply rstrip_no_lead, lstrip_no_lead. Qed.

Lemma strip_no_trail s : no_trail (strip s).
Proof. apply rstrip_no_trail. Qed.

Lemma strip_id s : no_lead s → no_trail s → strip s = s.
Proof.
  intros Hl Ht. unfold strip, rstrip. rewrite (lstrip_id s Hl).
  rewrite (lstrip_id (rev s) Ht). apply rev_involutive.
Qed.

Lemma strip_idemp s : strip (strip s) = strip s.
Proof. apply strip_id; [apply strip_no_lead|apply strip_no_trail]. Qed.

Lemma strip_sublist s : strip s `sublist_of` s.
Proof.
  unfold strip. destruct (rstrip_split (lstrip s)) as (ws & Hs & _).
  transitivity (lstrip s).
  - rewrite Hs at 2. by apply sublist_inserts_r.
  - destruct (lstrip_suffix s) as [k Hk].
    pose proof (sublist_inserts_l k (lstrip s) (lstrip s)) as H.
    rewrite <- Hk in H. by apply H.
Qed.

Lemma collapse_spaces_snoc b s c :
  is_space c = false → collapse_spaces b (s ++ [c]) = collapse_spaces b s ++ [c].
Proof.
  intros Hc. revert b. induction s as [|a s IH]; intros b; simpl.
  - by rewrite Hc.
  - destruct (is_space a); [destruct b|]; by rewrite IH.
Qed.

Lemma collapse_spaces_only_space b s c :
  c ∈ collapse_spaces b s → is_space c = true → c = SPACE.
Proof.
  revert b. induction s as [|a s IH]; intros b; simpl; [by intros ?%elem_of_nil|].
  destruct (is_space a) eqn:Ha; [destruct b|].
  - apply IH.
  - intros [->|Hin]%elem_of_cons; [done|]. by apply (IH true).
  - intros [->|Hin]%elem_of_cons; [congruence|]. by apply (IH false).
Qed.

Lemma collapse_spaces_no_lead s : no_lead (collapse_spaces true s).
Proof.
  induction s as [|a s IH]; simpl; [done|].
  by destruct (is_space a) eqn:Ha.
Qed.

Lemma collapse_spaces_single b s : single_spaced (collapse_spaces b s).
Proof.
  revert b. induction s as [|a s IH]; intros b; [done|].
  cbn [collapse_spaces]. destruct (is_space a) eqn:Ha; [destruct b|].
  - apply IH.
  - pose proof (collapse_spaces_no_lead s) as Hl. pose proof (IH true) as Hs.
    destruct (collapse_spaces true s) as [|x r]; [done|]. simpl in *. done.
  - pose proof (IH false) as Hs.
    destruct (collapse_spaces false s) as [|x r]; [done|]. simpl. split; [congruence|done].
Qed.

(** A text that is already normalized inside is left as it is. *)
Lemma collapse_spaces_id s :
  (∀ c, c ∈ s → is_space c = true → c = SPACE) → single_spaced s →
  collapse_spaces false s = s ∧ (no_lead s → collapse_spaces true s = s).
Proof.
  induction s as [|a s IH]; intros Honly Hsingle; [done|].
  assert (collapse_spaces false s = s ∧ (no_lead s → collapse_spaces true s = s)) as [IH1 IH2].
  { apply IH.
    - intros c Hc. apply Honly. by apply elem_of_cons; right.
    - destruct s; [done|]. by destruct Hsingle. }
  cbn [collapse_spaces]. destruct (is_space a) eqn:Ha.
  - assert (a = SPACE) as -> by (apply Honly; [by apply elem_of_cons; left|done]).
    split; [|simpl; congruence].
    f_equal. apply IH2. destruct s as [|x r]; [done|]. simpl. by apply Hsingle.
  - by rewrite IH1.
Qed.

Lemma no_trail_snoc s c : no_trail (s ++ [c]) ↔ is_space c = false.
Proof. unfold no_trail. by rewrite rev_app_distr. Qed.

Lemma collapse_spaces_trimmed s :
  no_lead s → no_trail s →
  no_lead (collapse_spaces false s) ∧ no_trail (collapse_spaces false s).
Proof.
  intros Hl Ht. split.
  - destruct s as [|c s]; [done|]. simpl in *. by rewrite Hl.
  - destruct s as [|c s _] using rev_ind; [done|].
    apply no_trail_snoc in Ht. rewrite collapse_spaces_snoc by done.
    by apply no_trail_snoc.
Qed.

(** X1. [normalize_text] yields a text without whitespace at either end,
    whose only whitespace characters are single spaces between words, and
    normalizing a second time changes nothing. *)
Theorem normalize_text_normal (s : pystr) :
  no_lead (normalize_text s)
  ∧ no_trail (normalize_text s)
  ∧ (∀ c, c ∈ normalize_text s → is_space c = true → c = SPACE)
  ∧ single_spaced (normalize_text s)
  ∧ normalize_text (normalize_text s) = normalize_text s.
Proof.
  unfold normalize_text.
  destruct (collapse_spaces_trimmed (strip s) (strip_no_lead s) (strip_no_trail s))
    as [Hl Ht].
  split; [done|]. split; [done|].
  split; [intros c; apply collapse_spaces_only_space|].
  split; [apply collapse_spaces_single|].
  rewrite (strip_id _ Hl Ht).
  apply collapse_spaces_id.
  - intros c. apply collapse_spaces_only_space.
  - apply collapse_spaces_single.
Qed.

(** X2. The normalized text starts with a slash exactly when the first
    character of the raw text that is no whitespace is a slash: whitespace
    before a slash does not make [on_text] record the message. *)
Theorem normalize_text_slash (raw : pystr) :
  startswith [SLASH] (normalize_text raw) = startswith [SLASH] (lstrip raw).
Proof.
  unfold normalize_text, strip.
  pose proof (lstrip_no_lead raw) as Hl.
  destruct (lstrip raw) as [|c t]; [done|]. simpl in Hl.
  destruct (rstrip_head c t Hl) as (t' & ->).
  simpl. by rewrite Hl.
Qed.

(** ** Further facts: start-up *)

Lemma stripped_lines_filter lines :
  stripped_lines lines = filter (λ l, l ≠ []) (map strip lines).
Proof.
  induction lines as [|line lines IH]; [done|]. simpl.
  destruct (strip line) as [|c t] eqn:Hs; simpl.
  - by rewrite filter_cons_False by (intros H; by apply H).
  - rewrite filter_cons_True by done. by rewrite IH.
Qed.

Lemma stripped_lines_trimmed lines :
  Forall (λ l, l ≠ [] ∧ strip l = l) (stripped_lines lines).
Proof.
  induction lines as [|line lines IH]; simpl; [constructor|].
  destruct (strip line) as [|c t] eqn:Hs; simpl; [done|].
  constructor; [|done]. split; [done|]. rewrite <- Hs. apply strip_idemp.
Qed.

Lemma stripped_lines_nil lines :
  stripped_lines lines = [] ↔ Forall (Forall (λ c, is_space c = true)) lines.
Proof.
  induction lines as [|line lines IH]; simpl; [split; [constructor|done]|].
  destruct (strip line) as [|c t] eqn:Hs; simpl.
  - rewrite IH. apply strip_nil_iff in Hs. split; [by constructor|by inversion 1].
  - split; [done|]. inversion 1 as [|? ? Hline _]. apply strip_nil_iff in Hline. congruence.
Qed.

(** X3. [load_texts] raises its [RuntimeError] when the path does not
    exist; when the path exists but opening or reading it raises (a
    directory, no permission, bytes that are not UTF-8), that exception goes
    through and nothing is returned; only when the file is read to its end
    does it return, in the order of the file, the trimmed form of every line
    that is not blank: each entry is non-empty and has no whitespace at
    either end, and the result is empty exactly when every line of the file
    is blank. *)
Theorem load_texts_trimmed (w : World) (path : pystr) :
  (files w path = None → load_texts w path = RuntimeError (path ++ lit " file not found"))
  ∧ (∀ e, files w path = Some (inl e) → load_texts w path = Raised e)
  ∧ (∀ lines, files w path = Some (inr lines) →
     ∃ texts,
       load_texts w path = Started texts
       ∧ texts = filter (λ l, l ≠ []) (map strip lines)
       ∧ Forall (λ l, l ≠ [] ∧ strip l = l ∧ no_lead l ∧ no_trail l) texts
       ∧ (texts = [] ↔ Forall (Forall (λ c, is_space c = true)) lines))
  ∧ (∀ texts, load_texts w path = Started texts →
     ∃ lines, files w path = Some (inr lines) ∧ texts = stripped_lines lines).
Proof.
  unfold load_texts. split; [by intros ->|]. split; [by intros e ->|]. split.
  - intros lines ->. exists (stripped_lines lines).
    split; [done|]. split; [apply stripped_lines_filter|].
    split; [|apply stripped_lines_nil].
    eapply Forall_impl; [apply stripped_lines_trimmed|].
    intros l [Hne Hid]. split; [done|]. split; [done|].
    rewrite <- Hid. split; [apply strip_no_lead|apply strip_no_trail].
  - intros texts. destruct (files w path) as [[e|lines]|]; [done| |done].
    intros [= <-]. by exists lines.
Qed.

Lemma load_texts_trimmed_witness :
  load_texts unreadable_world (lit "missing.txt")
  = RuntimeError (lit "missing.txt" ++ lit " file not found")
  ∧ load_texts unreadable_world (lit "comments.txt") = Raised IsADirectoryError
  ∧ load_texts unreadable_world (lit "latin1.txt") = Raised UnicodeDecodeError
  ∧ ∃ texts,
      load_texts sample_world (lit "comments.txt") = Started texts
      ∧ texts = filter (λ l, l ≠ [])
                  (map strip [lit "  is late again " ++ [NEWLINE]; [NEWLINE];
                              lit "forgot the keys" ++ [NEWLINE]])
      ∧ Forall (λ l, l ≠ [] ∧ strip l = l ∧ no_lead l ∧ no_trail l) texts.
Proof.
  destruct (load_texts_trimmed unreadable_world (lit "missing.txt")) as [Hnone _].
  destruct (load_texts_trimmed unreadable_world (lit "comments.txt")) as (_ & Hdir & _).
  destruct (load_texts_trimmed unreadable_world (lit "latin1.txt")) as (_ & Hdec & _).
  destruct (load_texts_trimmed sample_world (lit "comments.txt")) as (_ & _ & Hsome & _).
  split; [apply Hnone; reflexivity|].
  split; [apply Hdir; reflexivity|].
  split; [apply Hdec; reflexivity|].
  destruct (Hsome [lit "  is late again " ++ [NEWLINE]; [NEWLINE];
                   lit "forgot the keys" ++ [NEWLINE]] eq_refl)
    as (texts & Hload & Htexts & Hall & _).
  by exists texts.
Defined.

Example load_texts_ex :
  load_texts sample_world (lit "comments.txt")
  = Started [lit "is late again"; lit "forgot the keys"].
Proof. vm_compute. reflexivity. Qed.

Example load_texts_directory_ex :
  load_texts unreadable_world (lit "comments.txt") = Raised IsADirectoryError.
Proof. reflexivity. Qed.

Lemma roast_choice_elem (lines : list pystr) (k : nat) :
  lines ≠ [] → roast_choice lines k ∈ lines.
Proof.
  intros Hne. unfold roast_choice.
  destruct (lookup_lt_is_Some_2 lines (k mod length lines)) as [l Hl].
  - apply Nat.mod_upper_bound. by destruct lines.
  - rewrite Hl. simpl. by eapply list_elem_of_lookup_2.
Qed.

(** X4. When the module starts, the three tokens are set and not empty,
    the roast lines were read from the configured file and there is at least
    one, and whatever index [random.choice] draws, the line chosen is one of
    them, non-empty and trimmed. *)
Theorem module_init_started (w : World) (cfg : Config) (k : nat) :
  module_init w = Started cfg →
  getenv w (lit "BOT_TOKEN") = Some (cfg_TOKEN cfg) ∧ cfg_TOKEN cfg ≠ []
  ∧ getenv w (lit "RENDER_EXTERNAL_URL") = Some (cfg_RENDER_URL cfg) ∧ cfg_RENDER_URL cfg ≠ []
  ∧ getenv w (lit "HF_API_TOKEN") = Some (cfg_HF_API_TOKEN cfg) ∧ cfg_HF_API_TOKEN cfg ≠ []
  ∧ load_texts w (cfg_ROAST_FILE cfg) = Started (cfg_ROAST_LINES cfg)
  ∧ cfg_ROAST_LINES cfg ≠ []
  ∧ roast_choice (cfg_ROAST_LINES cfg) k ∈ cfg_ROAST_LINES cfg
  ∧ roast_choice (cfg_ROAST_LINES cfg) k ≠ []
  ∧ strip (roast_choice (cfg_ROAST_LINES cfg) k) = roast_choice (cfg_ROAST_LINES cfg) k.
Proof.
  unfold module_init.
  destruct (getenv w (lit "BOT_TOKEN")) as [[|c1 t1]|]; [done| |done].
  destruct (getenv w (lit "RENDER_EXTERNAL_URL")) as [[|c2 t2]|]; [done| |done].
  destruct (getenv w (lit "HF_API_TOKEN")) as [[|c3 t3]|]; [done| |done].
  cbn [unset].
  set (path := default (lit "comments.txt") (getenv w (lit "ROAST_FILE"))).
  destruct (load_texts w path) as [lines|msg|e] eqn:Hload; [|done|done].
  destruct lines as [|l lines]; [done|].
  intros [= <-]. cbn [cfg_TOKEN cfg_RENDER_URL cfg_HF_API_TOKEN cfg_ROAST_FILE cfg_ROAST_LINES default].
  assert (roast_choice (l :: lines) k ∈ l :: lines) as Hin by by apply roast_choice_elem.
  assert (Forall (λ l, l ≠ [] ∧ strip l = l) (l :: lines)) as Hall.
  { unfold load_texts in Hload. destruct (files w path) as [[e|read]|]; [done| |done].
    injection Hload as <-. apply stripped_lines_trimmed. }
  rewrite Forall_forall in Hall. destruct (Hall _ Hin) as [Hne Hid].
  repeat split; done.
Qed.

Lemma module_init_started_witness :
  ∃ cfg,
    module_init sample_world = Started cfg
    ∧ cfg_ROAST_LINES cfg ≠ []
    ∧ roast_choice (cfg_ROAST_LINES cfg) 5 ∈ cfg_ROAST_LINES cfg.
Proof.
  exists (mkConfig (lit "123:abc") (lit "https://sophie.example") (lit "hf_xyz")
            (lit "mistralai/Mistral-7B-Instruct-v0.2") (lit "comments.txt")
            [lit "is late again"; lit "forgot the keys"]).
  assert (module_init sample_world
          = Started (mkConfig (lit "123:abc") (lit "https://sophie.example") (lit "hf_xyz")
                       (lit "mistralai/Mistral-7B-Instruct-v0.2") (lit "comments.txt")
                       [lit "is late again"; lit "forgot the keys"])) as Hinit.
  { vm_compute. reflexivity. }
  split; [exact Hinit|].
  destruct (module_init_started sample_world _ 5 Hinit)
    as (_ & _ & _ & _ & _ & _ & _ & Hne & Hin & _).
  split; [exact Hne|exact Hin].
Defined.

(** X5. Start-up fails fast and in a fixed order. The module starts
    exactly when the three tokens are set and not empty and the roast file
    exists, is read to its end and holds a line that is not blank. It
    raises an exception of the file system exactly when the three tokens
    are set and opening or reading the existing roast path raises it (a
    directory, no permission, bytes that are not UTF-8). It raises a
    [RuntimeError] in the remaining cases, with the message of the first
    check that fails: the bot token, the public URL, the model token, the
    missing file, the file with only blank lines. *)
Theorem module_init_starts_iff (w : World) :
  let TOKEN := unset (getenv w (lit "BOT_TOKEN")) in
  let URL := unset (getenv w (lit "RENDER_EXTERNAL_URL")) in
  let HF := unset (getenv w (lit "HF_API_TOKEN")) in
  let path := default (lit "comments.txt") (getenv w (lit "ROAST_FILE")) in
  ((∃ cfg, module_init w = Started cfg)
   ↔ TOKEN = false ∧ URL = false ∧ HF = false
     ∧ ∃ lines,
         files w path = Some (inr lines)
         ∧ Exists (λ line, ¬ Forall (λ c, is_space c = true) line) lines)
  ∧ (∀ e, module_init w = Raised e
          ↔ TOKEN = false ∧ URL = false ∧ HF = false ∧ files w path = Some (inl e))
  ∧ (∀ msg, module_init w = RuntimeError msg
       ↔ (TOKEN = true ∧ msg = lit "BOT_TOKEN is not set")
         ∨ (TOKEN = false ∧ URL = true ∧ msg = lit "RENDER_EXTERNAL_URL is not set")
         ∨ (TOKEN = false ∧ URL = false ∧ HF = true ∧ msg = lit "HF_API_TOKEN is not set")
         ∨ (TOKEN = false ∧ URL = false ∧ HF = false
            ∧ files w path = None ∧ msg = path ++ lit " file not found")
         ∨ (TOKEN = false ∧ URL = false ∧ HF = false
            ∧ ∃ lines, files w path = Some (inr lines)
                       ∧ Forall (Forall (λ c, is_space c = true)) lines
                       ∧ msg = lit "comments file is empty")).
Proof.
  intros TOKEN URL HF path. unfold module_init, load_texts.
  fold TOKEN URL HF path.
  destruct TOKEN.
  { split; [split; [by intros [? ?]|by intros [? _]]|].
    split; [intros e; split; [done|by intros [? _]]|].
    intros msg. split; [intros [= <-]; by left|].
    intros [[_ ->]|[(? & _)|[(? & _)|[(? & _)|(? & _)]]]]; done. }
  destruct URL.
  { split; [split; [by intros [? ?]|by intros (_ & ? & _)]|].
    split; [intros e; split; [done|by intros (_ & ? & _)]|].
    intros msg. split; [intros [= <-]; right; by left|].
    intros [(? & _)|[(_ & _ & ->)|[(_ & ? & _)|[(_ & ? & _)|(_ & ? & _)]]]]; done. }
  destruct HF.
  { split; [split; [by intros [? ?]|by intros (_ & _ & ? & _)]|].
    split; [intros e; split; [done|by intros (_ & _ & ? & _)]|].
    intros msg. split; [intros [= <-]; right; right; by left|].
    intros [(? & _)|[(_ & ? & _)|[(_ & _ & _ & ->)|[(_ & _ & ? & _)|(_ & _ & ? & _)]]]];
      done. }
  destruct (files w path) as [[e|lines]|].
  - split; [split; [by intros [? ?]|by intros (_ & _ & _ & ? & ? & _)]|].
    split; [intros e'; split; [by intros [= <-]|by intros (_ & _ & _ & [= <-])]|].
    intros msg. split; [done|].
    intros [(? & _)|[(_ & ? & _)|[(_ & _ & ? & _)|[(_ & _ & _ & ? & _)
                                                  |(_ & _ & _ & ? & ? & _)]]]]; done.
  - pose proof (stripped_lines_nil lines) as Hnil.
    destruct (stripped_lines lines) as [|l ls].
    + split; [split|].
      * by intros [? ?].
      * intros (_ & _ & _ & lines' & [= <-] & Hex).
        apply Exists_not_Forall in Hex. destruct Hex. by apply Hnil.
      * split; [intros e; split; [done|by intros (_ & _ & _ & ?)]|].
        intros msg. split.
        -- intros [= <-]. do 4 right. do 3 (split; [done|]). exists lines.
           split; [done|]. split; [by apply Hnil|done].
        -- intros [(? & _)|[(_ & ? & _)|[(_ & _ & ? & _)|[(_ & _ & _ & ? & _)
                                                        |(_ & _ & _ & ? & _ & _ & ->)]]]];
             done.
    + split; [split|].
      * intros _. do 3 (split; [done|]). exists lines. split; [done|].
        apply not_Forall_Exists; [intros line; apply _|]. intros Hall.
        apply Hnil in Hall. done.
      * intros _. by eexists.
      * split; [intros e; split; [done|by intros (_ & _ & _ & ?)]|].
        intros msg. split; [done|].
        intros [(? & _)|[(_ & ? & _)|[(_ & _ & ? & _)|[(_ & _ & _ & ? & _)
                                                      |(_ & _ & _ & lines' & [= <-] & Hall & _)]]]];
          try done.
        apply Hnil in Hall. done.
  - split; [split; [by intros [? ?]|by intros (_ & _ & _ & ? & ? & _)]|].
    split; [intros e; split; [done|by intros (_ & _ & _ & ?)]|].
    intros msg. split; [intros [= <-]; do 3 right; by left|].
    intros [(? & _)|[(_ & ? & _)|[(_ & _ & ? & _)|[(_ & _ & _ & _ & ->)
                                                  |(_ & _ & _ & ? & ? & _)]]]]; done.
Qed.

Lemma module_init_starts_iff_witness :
  (∃ cfg, module_init sample_world = Started cfg)
  ∧ module_init unreadable_world = Raised IsADirectoryError.
Proof.
  split.
  - apply (proj1 (module_init_starts_iff sample_world)).
    split; [reflexivity|]. split; [reflexivity|]. split; [reflexivity|].
    exists [lit "  is late again " ++ [NEWLINE]; [NEWLINE]; lit "forgot the keys" ++ [NEWLINE]].
    split; [reflexivity|]. apply Exists_cons_tl, Exists_cons_tl, Exists_cons_hd.
    intros H. apply Forall_inv in H. discriminate H.
  - apply (proj1 (proj2 (module_init_starts_iff unreadable_world))).
    split; [reflexivity|]. split; [reflexivity|]. split; reflexivity.
Defined.

Example module_init_blank_ex :
  module_init (mkWorld (λ name, if pystr_eqb name (lit "ROAST_FILE") then Some (lit "blank.txt")
                                else getenv sample_world name)
                 (files unreadable_world))
  = RuntimeError (lit "comments file is empty").
Proof. vm_compute. reflexivity. Qed.

(** ** Further facts: the handler *)

Lemma hf_generate_starts_with_post endpoint prompt :
  ∃ rest, snd (hf_generate endpoint prompt) = EvPost prompt :: rest.
Proof. apply (hf_loop_starts_with_post endpoint prompt 0). lia. Qed.

Lemma replies_app evs1 evs2 : replies (evs1 ++ evs2) = replies evs1 ++ replies evs2.
Proof. unfold replies. apply omap_app. Qed.

(** An attempt posts, and sleeps at most once, after a 429 or 503 that
    lets the loop go on. *)
Lemma attempt_step_events endpoint prompt i :
  fst (attempt_step endpoint prompt i) = [EvPost prompt]
  ∨ (attempt_step endpoint prompt i = ([EvPost prompt; EvSleep (backoff i)], None)
     ∧ ∃ r, endpoint i = inr r ∧ (status r = 429 ∨ status r = 503)).
Proof.
  unfold attempt_step, try_block.
  destruct (endpoint i) as [e|r]; [by left|].
  destruct (Z.eqb_spec (status r) 200).
  - destruct (json_body r) as [e'|data]; [by left|].
    destruct (first_choice_content data); by left.
  - unfold is_retry_status.
    destruct (Z.eqb_spec (status r) 429); [right; split; [done|exists r; auto]|].
    destruct (Z.eqb_spec (status r) 503); [right; split; [done|exists r; auto]|].
    simpl. destruct (text_body r); by left.
Qed.

Lemma attempt_step_no_reply endpoint prompt i :
  replies (fst (attempt_step endpoint prompt i)) = [].
Proof.
  destruct (attempt_step_events endpoint prompt i) as [-> | [-> _]]; done.
Qed.

Lemma hf_generate_no_reply endpoint prompt : replies (snd (hf_generate endpoint prompt)) = [].
Proof.
  unfold hf_generate. generalize (seq 0 3). intros l.
  induction l as [|i l IH]; [done|]. cbn [hf_loop].
  pose proof (attempt_step_no_reply endpoint prompt i) as Hi.
  destruct (attempt_step endpoint prompt i) as [evs [s|]]; simpl in *; [done|].
  destruct (hf_loop endpoint prompt l) as [s evs']. simpl in *.
  by rewrite replies_app, Hi, IH.
Qed.

Lemma length_postprocess reply : (length (postprocess reply) <= 3501)%nat.
Proof.
  unfold postprocess.
  destruct (strip reply) as [|c r] eqn:Hr; cbn [is_empty].
  - vm_compute. lia.
  - destruct (Nat.ltb_spec 3500 (length (c :: r))); [|lia].
    rewrite length_app. simpl length at 2.
    pose proof (length_rsplit1_head SPACE (take 3500 (c :: r))) as Hh.
    rewrite length_take in Hh. lia.
Qed.

(** The processed reply is never empty, nor whitespace only. *)
Lemma postprocess_not_blank reply : ¬ Forall (λ c, is_space c = true) (postprocess reply).
Proof.
  unfold postprocess. pose proof (strip_no_lead reply) as Hl.
  destruct (strip reply) as [|c r]; cbn [is_empty].
  - intros H. by inversion H.
  - destruct (3500 <? length (c :: r))%nat.
    + intros [_ H]%Forall_app. by inversion H.
    + intros H. simpl in Hl. inversion H; congruence.
Qed.

Lemma roast_candidate_name_nonempty update : roast_candidate_name update ≠ [].
Proof.
  unfold roast_candidate_name.
  destruct (message update) as [msg|]; [|done].
  destruct (from_user msg) as [user|]; [|done].
  by destruct (first_name user).
Qed.

Lemma deque_append_snoc d x : ∃ k, deque_append 3 d x = k ++ [x].
Proof.
  unfold deque_append.
  destruct (Nat.ltb_spec 3 (length (d ++ [x]))) as [Hlt|_]; [|by exists d].
  destruct d as [|a d]; [simpl in Hlt; lia|]. by exists d.
Qed.

Section OnTextFacts.

Variable lower : pystr -> pystr.
Variable ci_eq : char -> char -> bool.
Variable ROAST_LINES : list pystr.

(** An update is ignored unless it is a text message of a group chat. *)
Lemma on_text_ignored env update st :
  (∀ msg raw, message update = Some msg → text msg = Some raw → raw ≠ [] →
     is_group update = false) →
  on_text lower ci_eq ROAST_LINES env update st = (st, []).
Proof.
  intros H. unfold on_text.
  destruct (message update) as [msg|] eqn:Hmsg; [|done].
  destruct (text msg) as [[|c raw]|] eqn:Htext; [done| |done].
  by rewrite (H msg (c :: raw) eq_refl Htext).
Qed.

Lemma is_group_chat update msg :
  message update = Some msg → is_group update = true → ∃ ch, chat msg = Some ch.
Proof.
  unfold is_group. intros ->. destruct (chat msg) as [ch|]; [by exists ch|done].
Qed.

Lemma on_text_llm env update st msg raw ch :
  message update = Some msg → text msg = Some raw → raw ≠ [] →
  chat msg = Some ch → is_group update = true →
  should_answer_with_llm lower update (default [] (env_bot_username env)) = true →
  on_text lower ci_eq ROAST_LINES env update st =
    let h1 := recorded update raw ch st in
    let prompt :=
      build_prompt ci_eq (normalize_text raw) (chat_context h1 (chat_ident ch))
        (default [] (env_bot_username env)) in
    (mkState (snd (history_get (chat_ident ch) h1)) (LAST_ROAST_AT st),
     snd (hf_generate (env_endpoint env) prompt)
       ++ [EvReply (postprocess (fst (hf_generate (env_endpoint env) prompt)))]).
Proof.
  intros Hmsg Htext Hraw Hchat Hgroup Hllm.
  rewrite (on_text_group lower ci_eq ROAST_LINES env update st msg raw ch
             Hmsg Htext Hraw Hchat Hgroup).
  cbv zeta. rewrite Hllm. fold (recorded update raw ch st).
  rewrite <- (history_get_entries (chat_ident ch) (recorded update raw ch st)).
  destruct (history_get (chat_ident ch) (recorded update raw ch st)) as [entries h2].
  cbn [fst snd]. by destruct (hf_generate (env_endpoint env) _).
Qed.

Lemma on_text_roast_path env update st msg raw ch :
  message update = Some msg → text msg = Some raw → raw ≠ [] →
  chat msg = Some ch → is_group update = true →
  should_answer_with_llm lower update (default [] (env_bot_username env)) = false →
  on_text lower ci_eq ROAST_LINES env update st =
    let h1 := recorded update raw ch st in
    let last := default 0%float (LAST_ROAST_AT st !! chat_ident ch) in
    if roast_probability (env_randint env)
       && negb (PrimFloat.ltb (PrimFloat.sub (env_now env) last) 120%float)
    then (mkState h1 (<[chat_ident ch := env_now env]> (LAST_ROAST_AT st)),
          [EvReply (roast_candidate_name update ++ lit " "
                      ++ roast_choice ROAST_LINES (env_choice env))])
    else (mkState h1 (LAST_ROAST_AT st), []).
Proof.
  intros Hmsg Htext Hraw Hchat Hgroup Hllm.
  rewrite (on_text_group lower ci_eq ROAST_LINES env update st msg raw ch
             Hmsg Htext Hraw Hchat Hgroup).
  cbv zeta. rewrite Hllm. fold (recorded update raw ch st).
  destruct (roast_probability (env_randint env)); [|done].
  unfold roast_allowed. cbn [LAST_ROAST_AT CHAT_HISTORY andb].
  by destruct (PrimFloat.ltb _ _).
Qed.

End OnTextFacts.

Section HandlerProperties.

Variable lower : pystr -> pystr.
Variable ci_eq : char -> char -> bool.
Variable ROAST_LINES : list pystr.

(** X6. An update that is no message of a group or supergroup is ignored,
    whatever its text: [on_text] changes nothing, calls nothing and sends
    nothing. *)
Theorem on_text_outside_group (env : Env) (update : Update) (st : State) :
  is_group update = false →
  on_text lower ci_eq ROAST_LINES env update st = (st, []).
Proof. intros Hg. apply on_text_ignored. by intros. Qed.

(** X7. A text message of a group chat that addresses the bot is answered
    through the completion client whatever the roast draw, the choice and
    the clock are: the prompt is built from the normalized text and the
    chat's context as it is after the call, one reply follows the events of
    the client, and no cooldown record changes. *)
Theorem on_text_direct_address (env : Env) (update : Update) (st : State)
    (msg : Message) (raw : pystr) :
  message update = Some msg → text msg = Some raw → is_group update = true →
  should_answer_with_llm lower update (default [] (env_bot_username env)) = true →
  let result := on_text lower ci_eq ROAST_LINES env update st in
  ∃ ch,
    chat msg = Some ch
    ∧ (let prompt :=
         build_prompt ci_eq (normalize_text raw)
           (chat_context (CHAT_HISTORY (fst result)) (chat_ident ch))
           (default [] (env_bot_username env)) in
       snd result =
         snd (hf_generate (env_endpoint env) prompt)
           ++ [EvReply (postprocess (fst (hf_generate (env_endpoint env) prompt)))])
    ∧ LAST_ROAST_AT (fst result) = LAST_ROAST_AT st
    ∧ ∀ draw k now,
        on_text lower ci_eq ROAST_LINES
          (mkEnv (env_bot_username env) (env_endpoint env) draw k now) update st
        = result.
Proof.
  intros Hmsg Htext Hgroup Hllm result.
  destruct (is_group_chat update msg Hmsg Hgroup) as [ch Hchat].
  assert (raw ≠ []) as Hraw.
  { intros ->. unfold should_answer_with_llm in Hllm. by rewrite Hmsg, Htext in Hllm. }
  exists ch. split; [done|]. subst result.
  rewrite (on_text_llm lower ci_eq ROAST_LINES env update st msg raw ch) by done.
  cbv zeta. cbn [fst snd CHAT_HISTORY LAST_ROAST_AT].
  rewrite chat_context_history_get.
  split; [done|]. split; [done|]. intros draw k now.
  by rewrite (on_text_llm lower ci_eq ROAST_LINES _ update st msg raw ch).
Qed.

(** X8. The completion endpoint is called only for a text message of a
    group chat that addresses the bot. *)
Theorem on_text_posts_only_when_addressed (env : Env) (update : Update) (st : State) :
  posts (snd (on_text lower ci_eq ROAST_LINES env update st)) ≠ 0%nat →
  is_group update = true
  ∧ should_answer_with_llm lower update (default [] (env_bot_username env)) = true.
Proof.
  intros Hposts.
  destruct (message update) as [msg|] eqn:Hmsg;
    [|by rewrite on_text_ignored in Hposts by (intros; congruence)].
  destruct (text msg) as [raw|] eqn:Htext;
    [|by rewrite on_text_ignored in Hposts by (intros; congruence)].
  destruct (is_group update) eqn:Hgroup;
    [|by rewrite on_text_ignored in Hposts by (intros; congruence)].
  destruct (decide (raw = [])) as [->|Hraw];
    [by rewrite on_text_ignored in Hposts by (intros; congruence)|].
  destruct (is_group_chat update msg Hmsg Hgroup) as [ch Hchat].
  split; [done|].
  destruct (should_answer_with_llm lower update _) eqn:Hllm; [done|].
  rewrite (on_text_roast_path lower ci_eq ROAST_LINES env update st msg raw ch) in Hposts
    by done.
  cbv zeta in Hposts. by destruct (_ && _) in Hposts.
Qed.

(** X9. [on_text] sends at most one reply per update and never an empty
    one; a reply that follows a completion request is the last event of the
    call, is not whitespace only and has at most 3501 characters. *)
Theorem on_text_replies (env : Env) (update : Update) (st : State) :
  let evs := snd (on_text lower ci_eq ROAST_LINES env update st) in
  (length (replies evs) <= 1)%nat
  ∧ Forall (λ t, t ≠ []) (replies evs)
  ∧ (posts evs ≠ 0%nat →
     ∃ t, replies evs = [t] ∧ last evs = Some (EvReply t)
          ∧ ¬ Forall (λ c, is_space c = true) t ∧ (length t <= 3501)%nat).
Proof.
  intros evs. subst evs.
  assert (∀ e, on_text lower ci_eq ROAST_LINES env update st = (st, ([] : list event)) →
    let evs := snd (on_text lower ci_eq ROAST_LINES env update st) in
    (length (replies evs) <= 1)%nat ∧ Forall (λ t, t ≠ []) (replies evs)
    ∧ (posts evs ≠ 0%nat →
       ∃ t, replies evs = [t] ∧ last evs = Some (EvReply t)
            ∧ ¬ Forall (λ c, is_space c = true) t ∧ (length t <= e)%nat)) as Hign.
  { intros e ->. simpl. split; [lia|]. split; [constructor|]. by intros []. }
  destruct (message update) as [msg|] eqn:Hmsg;
    [|apply Hign, on_text_ignored; intros; congruence].
  destruct (text msg) as [raw|] eqn:Htext;
    [|apply Hign, on_text_ignored; intros; congruence].
  destruct (is_group update) eqn:Hgroup;
    [|apply Hign, on_text_ignored; intros; congruence].
  destruct (decide (raw = [])) as [->|Hraw];
    [apply Hign, on_text_ignored; intros; congruence|].
  clear Hign.
  destruct (is_group_chat update msg Hmsg Hgroup) as [ch Hchat].
  destruct (should_answer_with_llm lower update (default [] (env_bot_username env))) eqn:Hllm.
  - rewrite (on_text_llm lower ci_eq ROAST_LINES env update st msg raw ch) by done.
    cbv zeta. cbn [snd]. rewrite replies_app, hf_generate_no_reply. simpl.
    split; [lia|]. split.
    + constructor; [|constructor]. intros Hnil.
      apply (postprocess_not_blank (fst (hf_generate (env_endpoint env)
        (build_prompt ci_eq (normalize_text raw)
           (chat_context (recorded update raw ch st) (chat_ident ch))
           (default [] (env_bot_username env)))))).
      rewrite Hnil. constructor.
    + intros _. eexists. split; [done|]. split; [apply last_snoc|].
      split; [apply postprocess_not_blank|apply length_postprocess].
  - rewrite (on_text_roast_path lower ci_eq ROAST_LINES env update st msg raw ch) by done.
    cbv zeta. destruct (_ && _); simpl.
    + split; [lia|]. split; [|by intros []].
      constructor; [|constructor]. intros [H _]%app_eq_nil.
      by apply (roast_candidate_name_nonempty update).
    + split; [lia|]. split; [constructor|by intros []].
Qed.

End HandlerProperties.

(** A private message is ignored even when it mentions the bot. *)
Lemma on_text_outside_group_witness :
  on_text ascii_lower ascii_ci_eq [lit "is late again"] (roast_env 1000) private_message
    initial_state
  = (initial_state, []).
Proof.
  apply (on_text_outside_group ascii_lower ascii_ci_eq [lit "is late again"]
           (roast_env 1000) private_message initial_state).
  reflexivity.
Defined.

Lemma on_text_direct_address_witness :
  let env := roast_env 1000 in
  let result :=
    on_text ascii_lower ascii_ci_eq [lit "is late again"] env mention_message initial_state in
  ∃ ch,
    Some (mkChat (-1001) (lit "supergroup")) = Some ch
    ∧ (let prompt :=
         build_prompt ascii_ci_eq (normalize_text (lit "hello   @sophie_bot "))
           (chat_context (CHAT_HISTORY (fst result)) (chat_ident ch)) sophie in
       snd result =
         snd (hf_generate endpoint_timeout prompt)
           ++ [EvReply (postprocess (fst (hf_generate endpoint_timeout prompt)))])
    ∧ LAST_ROAST_AT (fst result) = LAST_ROAST_AT initial_state.
Proof.
  intros env result.
  destruct (on_text_direct_address ascii_lower ascii_ci_eq [lit "is late again"] env mention_message initial_state
              (mkMessage (Some (lit "hello   @sophie_bot ")) [mkEntity (lit "mention") 8 11]
                 (Some (mkChat (-1001) (lit "supergroup")))
                 (Some (mkUser (lit "Ann") (Some (lit "ann_92")))) None)
              (lit "hello   @sophie_bot "))
    as (ch & Hch & Hevs & Hlast & _).
  - reflexivity.
  - reflexivity.
  - reflexivity.
  - vm_compute. reflexivity.
  - exists ch. split; [exact Hch|]. split; [exact Hevs|exact Hlast].
Defined.

(** The draw fires and the cooldown allows a roast, yet the mention is
    answered through the client: three POSTs that time out, one reply. *)
Example on_text_mention_beats_roast :
  let prompt :=
    build_prompt ascii_ci_eq (lit "hello @sophie_bot") [lit "Ann: hello @sophie_bot"] sophie in
  on_text ascii_lower ascii_ci_eq [lit "is late again"] (roast_env 1000) mention_message
    initial_state
  = (mkState {[ (-1001) := [lit "Ann: hello @sophie_bot"] ]} ∅,
     [EvPost prompt; EvPost prompt; EvPost prompt; EvReply FROZE]).
Proof. vm_compute. reflexivity. Qed.

Lemma on_text_posts_only_when_addressed_witness :
  is_group mention_message = true
  ∧ should_answer_with_llm ascii_lower mention_message
      (default [] (env_bot_username (roast_env 1000))) = true.
Proof.
  apply (on_text_posts_only_when_addressed ascii_lower ascii_ci_eq [lit "is late again"]
           (roast_env 1000) mention_message initial_state).
  vm_compute. discriminate.
Defined.

Lemma on_text_replies_witness :
  let evs :=
    snd (on_text ascii_lower ascii_ci_eq [lit "is late again"] (roast_env 1000)
           mention_message initial_state) in
  ∃ t, replies evs = [t] ∧ last evs = Some (EvReply t)
       ∧ ¬ Forall (λ c, is_space c = true) t ∧ (length t <= 3501)%nat.
Proof.
  intros evs.
  apply (on_text_replies ascii_lower ascii_ci_eq [lit "is late again"] (roast_env 1000)
           mention_message initial_state).
  vm_compute. discriminate.
Defined.

Lemma last_deque_append d x : last (deque_append 3 d x) = Some x.
Proof. destruct (deque_append_snoc d x) as [k ->]. apply last_snoc. Qed.

Lemma cooldown_from_app recorded log1 log2 :
  cooldown_from recorded (log1 ++ log2)
  ↔ cooldown_from recorded log1
    ∧ cooldown_from (foldl (λ m e, <[e.1 := e.2]> m) recorded log1) log2.
Proof.
  revert recorded. induction log1 as [|[c t] log1 IH]; intros recorded; simpl.
  - tauto.
  - rewrite IH. tauto.
Qed.

(** Roasts in other chats leave the record of a chat as it is. *)
Lemma foldl_insert_other (recorded : gmap Z float) (log : list (Z * float)) c :
  Forall (λ e, e.1 ≠ c) log →
  foldl (λ m e, <[e.1 := e.2]> m) recorded log !! c = recorded !! c.
Proof.
  revert recorded. induction log as [|[c' t] log IH]; intros recorded Hall; [done|].
  inversion Hall as [|? ? Hne Hrest]; subst. simpl in *.
  rewrite IH by done. by rewrite lookup_insert_ne.
Qed.

Section CooldownProperties.

Variable lower : pystr -> pystr.
Variable ci_eq : char -> char -> bool.
Variable ROAST_LINES : list pystr.

(** X10. A text message of a group chat whose normalized text does not
    start with a slash is recorded before anything else: the chat's context
    gets the entry made of the sender's first name (or "love"), a colon and
    the first 120 characters of the normalized text, as its newest entry,
    and the context of every other chat stays as it is. *)
Theorem on_text_records (env : Env) (update : Update) (st : State)
    (msg : Message) (raw : pystr) (ch : Chat) :
  message update = Some msg → text msg = Some raw → raw ≠ [] → chat msg = Some ch →
  is_group update = true →
  startswith [SLASH] (normalize_text raw) = false →
  let entry := roast_candidate_name update ++ lit ": " ++ take 120 (normalize_text raw) in
  let after := CHAT_HISTORY (fst (on_text lower ci_eq ROAST_LINES env update st)) in
  chat_context after (chat_ident ch)
  = deque_append 3 (chat_context (CHAT_HISTORY st) (chat_ident ch)) entry
  ∧ last (chat_context after (chat_ident ch)) = Some entry
  ∧ (∀ c, c ≠ chat_ident ch → chat_context after c = chat_context (CHAT_HISTORY st) c)
  ∧ (length entry <= length (roast_candidate_name update) + 122)%nat
  ∧ roast_candidate_name update ≠ [].
Proof.
  intros Hmsg Htext Hraw Hchat Hgroup Hslash entry after.
  assert (∀ c, chat_context after c
               = chat_context (history_append (chat_ident ch) entry (CHAT_HISTORY st)) c)
    as Hafter.
  { intros c. subst after.
    destruct (should_answer_with_llm lower update (default [] (env_bot_username env)))
      eqn:Hllm.
    - rewrite (on_text_llm lower ci_eq ROAST_LINES env update st msg raw ch) by done.
      cbv zeta. cbn [fst CHAT_HISTORY]. rewrite chat_context_history_get.
      unfold recorded. by rewrite Hslash.
    - rewrite (on_text_roast_path lower ci_eq ROAST_LINES env update st msg raw ch) by done.
      cbv zeta. unfold recorded. rewrite Hslash. by destruct (_ && _). }
  assert (chat_context after (chat_ident ch)
          = deque_append 3 (chat_context (CHAT_HISTORY st) (chat_ident ch)) entry) as Hhere.
  { rewrite Hafter, chat_context_history_append. by rewrite decide_True. }
  split; [done|]. split; [rewrite Hhere; apply last_deque_append|].
  split; [|split; [|apply roast_candidate_name_nonempty]].
  - intros c Hc. rewrite Hafter, chat_context_history_append. by rewrite decide_False.
  - subst entry. rewrite !length_app, length_take.
    change (length (lit ": ")) with 2%nat. lia.
Qed.

(** X11. A text message of a group chat that does not address the bot
    gets a roast exactly when the draw is 1 and the test [now - last < 120]
    fails, [last] being the chat's recorded time, or 0.0 without a record.
    The roast is the sender's name, a space and the chosen line, and the
    clock reading is then recorded for this chat; otherwise nothing is sent
    and no record changes. The completion endpoint is not called. *)
Theorem on_text_ambient (env : Env) (update : Update) (st : State)
    (msg : Message) (raw : pystr) (ch : Chat) :
  message update = Some msg → text msg = Some raw → raw ≠ [] → chat msg = Some ch →
  is_group update = true →
  should_answer_with_llm lower update (default [] (env_bot_username env)) = false →
  let result := on_text lower ci_eq ROAST_LINES env update st in
  let last := default 0%float (LAST_ROAST_AT st !! chat_ident ch) in
  let fires :=
    (env_randint env =? 1)
    && negb (PrimFloat.ltb (PrimFloat.sub (env_now env) last) 120%float) in
  snd result =
    (if fires
     then [EvReply (roast_candidate_name update ++ lit " "
                      ++ roast_choice ROAST_LINES (env_choice env))]
     else [])
  ∧ LAST_ROAST_AT (fst result) =
    (if fires then <[chat_ident ch := env_now env]> (LAST_ROAST_AT st) else LAST_ROAST_AT st)
  ∧ posts (snd result) = 0%nat.
Proof.
  intros Hmsg Htext Hraw Hchat Hgroup Hllm result last fires. subst result.
  rewrite (on_text_roast_path lower ci_eq ROAST_LINES env update st msg raw ch) by done.
  cbv zeta. unfold roast_probability. fold last. fold fires. by destruct fires.
Qed.

(** What one call adds to the log of roasts, and to the records. *)
Lemma on_text_roast_of env update st :
  let st' := fst (on_text lower ci_eq ROAST_LINES env update st) in
  let log := roast_of lower ci_eq ROAST_LINES env update st in
  cooldown_from (LAST_ROAST_AT st) log
  ∧ LAST_ROAST_AT st' = foldl (λ m e, <[e.1 := e.2]> m) (LAST_ROAST_AT st) log.
Proof.
  intros st' log. subst st' log. unfold roast_of.
  assert (on_text lower ci_eq ROAST_LINES env update st = (st, []) →
    cooldown_from (LAST_ROAST_AT st)
      (if is_roast (snd (on_text lower ci_eq ROAST_LINES env update st))
       then match update_chat update with Some c => [(c, env_now env)] | None => [] end
       else [])
    ∧ LAST_ROAST_AT (fst (on_text lower ci_eq ROAST_LINES env update st))
      = foldl (λ m e, <[e.1 := e.2]> m) (LAST_ROAST_AT st)
          (if is_roast (snd (on_text lower ci_eq ROAST_LINES env update st))
           then match update_chat update with Some c => [(c, env_now env)] | None => [] end
           else [])) as Hign.
  { by intros ->. }
  destruct (message update) as [msg|] eqn:Hmsg;
    [|apply Hign, on_text_ignored; intros; congruence].
  destruct (text msg) as [raw|] eqn:Htext;
    [|apply Hign, on_text_ignored; intros; congruence].
  destruct (is_group update) eqn:Hgroup;
    [|apply Hign, on_text_ignored; intros; congruence].
  destruct (decide (raw = [])) as [->|Hraw];
    [apply Hign, on_text_ignored; intros; congruence|].
  clear Hign.
  destruct (is_group_chat update msg Hmsg Hgroup) as [ch Hchat].
  assert (update_chat update = Some (chat_ident ch)) as ->.
  { unfold update_chat. rewrite Hmsg. simpl. by rewrite Hchat. }
  destruct (should_answer_with_llm lower update (default [] (env_bot_username env))) eqn:Hllm.
  - rewrite (on_text_llm lower ci_eq ROAST_LINES env update st msg raw ch) by done.
    cbv zeta. cbn [fst snd LAST_ROAST_AT].
    destruct (hf_generate_starts_with_post (env_endpoint env)
                (build_prompt ci_eq (normalize_text raw)
                   (chat_context (recorded update raw ch st) (chat_ident ch))
                   (default [] (env_bot_username env)))) as [rest ->].
    simpl. by destruct rest.
  - rewrite (on_text_roast_path lower ci_eq ROAST_LINES env update st msg raw ch) by done.
    cbv zeta. destruct (roast_probability (env_randint env)); cbn [andb]; [|done].
    by destruct (PrimFloat.ltb _ _) eqn:Hlt.
Qed.

Lemma run_log_cooldown calls st :
  cooldown_from (LAST_ROAST_AT st) (snd (run_log lower ci_eq ROAST_LINES calls st))
  ∧ LAST_ROAST_AT (fst (run_log lower ci_eq ROAST_LINES calls st))
    = foldl (λ m e, <[e.1 := e.2]> m) (LAST_ROAST_AT st)
        (snd (run_log lower ci_eq ROAST_LINES calls st)).
Proof.
  revert st. induction calls as [|[env update] calls IH]; intros st; [done|].
  cbn [run_log].
  destruct (on_text_roast_of env update st) as [Hc Hl].
  specialize (IH (fst (on_text lower ci_eq ROAST_LINES env update st))).
  destruct (run_log lower ci_eq ROAST_LINES calls _) as [st'' log]. cbn [fst snd] in *.
  rewrite cooldown_from_app, foldl_app, <- Hl. by destruct IH.
Qed.

(** X12. At most one roast per chat per cooldown: along any sequence of
    calls of [on_text], from any state, the clock readings [t1] and [t2] of
    two successive roasts in the same chat never satisfy the code's test
    [t2 - t1 < 120]; and the record of each chat is the clock reading of its
    latest roast. *)
Theorem run_log_spaced (calls : list (Env * Update)) (st : State)
    (before between after : list (Z * float)) (c : Z) (t1 t2 : float) :
  snd (run_log lower ci_eq ROAST_LINES calls st)
  = before ++ (c, t1) :: between ++ (c, t2) :: after →
  Forall (λ e, e.1 ≠ c) between →
  PrimFloat.ltb (PrimFloat.sub t2 t1) 120%float = false
  ∧ (Forall (λ e, e.1 ≠ c) after →
     LAST_ROAST_AT (fst (run_log lower ci_eq ROAST_LINES calls st)) !! c = Some t2).
Proof.
  intros Hlog Hbetween.
  destruct (run_log_cooldown calls st) as [Hcool Hlast].
  rewrite Hlog in Hcool, Hlast.
  apply cooldown_from_app in Hcool as [_ Hcool]. cbn [cooldown_from] in Hcool.
  destruct Hcool as [_ Hcool].
  apply cooldown_from_app in Hcool as [_ Hcool]. cbn [cooldown_from] in Hcool.
  destruct Hcool as [Hcool _].
  rewrite foldl_insert_other in Hcool by done.
  rewrite lookup_insert_eq in Hcool. split; [done|].
  intros Hafter. rewrite Hlast.
  rewrite foldl_app. cbn [foldl]. rewrite foldl_app. cbn [foldl].
  rewrite foldl_insert_other by done. apply lookup_insert_eq.
Qed.

(** X13. The application differs from [on_text] only on messages that
    start with a bot command: for every other update the filter
    [filters.TEXT & ~filters.COMMAND] changes nothing, as [on_text] itself
    ignores an update without text. *)
Theorem handle_update_on_text (env : Env) (update : Update) (st : State) :
  (∀ msg, message update = Some msg → filters_COMMAND msg = false) →
  handle_update lower ci_eq ROAST_LINES env update st
  = on_text lower ci_eq ROAST_LINES env update st.
Proof.
  intros Hcmd. unfold handle_update, handler_accepts, filters_TEXT.
  destruct (message update) as [msg|] eqn:Hmsg;
    [|symmetry; apply on_text_ignored; intros; congruence].
  rewrite (Hcmd msg eq_refl). cbn [negb]. rewrite andb_true_r.
  destruct (text msg) as [[|c raw]|] eqn:Htext; [| done |];
    symmetry; apply on_text_ignored; intros; congruence.
Qed.

End CooldownProperties.

Lemma on_text_records_witness :
  let after :=
    CHAT_HISTORY (fst (on_text ascii_lower ascii_ci_eq [lit "is late again"]
                         (roast_env 1000) ambient_message initial_state)) in
  chat_context after (-1001) = deque_append 3 [] (lit "Ann: good morning")
  ∧ last (chat_context after (-1001)) = Some (lit "Ann: good morning").
Proof.
  intros after.
  destruct (on_text_records ascii_lower ascii_ci_eq [lit "is late again"] (roast_env 1000)
              ambient_message initial_state ambient_msg (lit "good morning")
              (mkChat (-1001) (lit "supergroup")))
    as (Hctx & Hlast & _).
  - reflexivity.
  - reflexivity.
  - discriminate.
  - reflexivity.
  - reflexivity.
  - vm_compute. reflexivity.
  - split; [exact Hctx|exact Hlast].
Defined.

Lemma on_text_ambient_witness :
  snd (on_text ascii_lower ascii_ci_eq [lit "is late again"] (roast_env 1000)
         ambient_message initial_state)
  = [EvReply (lit "Ann" ++ lit " " ++ lit "is late again")]
  ∧ LAST_ROAST_AT (fst (on_text ascii_lower ascii_ci_eq [lit "is late again"]
                          (roast_env 1000) ambient_message initial_state))
    = <[ (-1001) := 1000%float ]> ∅.
Proof.
  destruct (on_text_ambient ascii_lower ascii_ci_eq [lit "is late again"] (roast_env 1000)
              ambient_message initial_state ambient_msg (lit "good morning")
              (mkChat (-1001) (lit "supergroup")))
    as (Hevs & Hlast & _).
  - reflexivity.
  - reflexivity.
  - discriminate.
  - reflexivity.
  - reflexivity.
  - vm_compute. reflexivity.
  - split; [exact Hevs|exact Hlast].
Defined.

(** Of three ambient messages at 500 s, 560 s and 620 s whose draws all
    fire, the first and the third are roasted. *)
Example run_log_three_calls :
  snd (run_log ascii_lower ascii_ci_eq [lit "is late again"] three_calls initial_state)
  = [(-1001, 500%float); (-1001, 620%float)].
Proof. vm_compute. reflexivity. Qed.

Lemma run_log_spaced_witness :
  PrimFloat.ltb (PrimFloat.sub 620 500) 120%float = false
  ∧ LAST_ROAST_AT
      (fst (run_log ascii_lower ascii_ci_eq [lit "is late again"] three_calls initial_state))
    !! (-1001) = Some 620%float.
Proof.
  destruct (run_log_spaced ascii_lower ascii_ci_eq [lit "is late again"] three_calls
              initial_state [] [] [] (-1001) 500%float 620%float)
    as [Hspaced Hlast].
  - vm_compute. reflexivity.
  - constructor.
  - split; [exact Hspaced|]. apply Hlast. constructor.
Defined.

Lemma handle_update_on_text_witness :
  handle_update ascii_lower ascii_ci_eq [lit "is late again"] (roast_env 1000)
    slash_message initial_state
  = on_text ascii_lower ascii_ci_eq [lit "is late again"] (roast_env 1000)
      slash_message initial_state.
Proof.
  apply (handle_update_on_text ascii_lower ascii_ci_eq [lit "is late again"]
           (roast_env 1000) slash_message initial_state).
  intros msg [= <-]. reflexivity.
Defined.

(** ** Further facts: the completion client *)

Lemma hf_loop_shape endpoint prompt (l : list nat) :
  let evs := snd (hf_loop endpoint prompt l) in
  (posts evs <= length l)%nat
  ∧ (l ≠ [] → (1 <= posts evs)%nat)
  ∧ (length (sleeps evs) <= posts evs)%nat
  ∧ sleeps evs `sublist_of` map (λ i, EvSleep (backoff i)) l
  ∧ Forall (λ e, e = EvPost prompt ∨ ∃ i, i ∈ l ∧ e = EvSleep (backoff i)) evs.
Proof.
  induction l as [|i l IH]; cbn zeta.
  - unfold posts, sleeps. simpl. split; [lia|]. split; [done|]. split; [lia|].
    split; [done|constructor].
  - cbn [hf_loop].
    assert (∀ evs' : list event,
      Forall (λ e, e = EvPost prompt ∨ ∃ j, j ∈ l ∧ e = EvSleep (backoff j)) evs' →
      Forall (λ e, e = EvPost prompt ∨ ∃ j, j ∈ i :: l ∧ e = EvSleep (backoff j)) evs')
      as Hweak.
    { intros evs' H. eapply Forall_impl; [exact H|]. intros e [->|(j & Hj & ->)]; [by left|].
      right. exists j. split; [by apply list_elem_of_further|done]. }
    destruct IH as (Hp & _ & Hs & Hsub & Hall).
    destruct (hf_loop endpoint prompt l) as [s' evs']. cbn [snd] in *.
    destruct (attempt_step_events endpoint prompt i) as [Hev | [Hstep _]].
    + destruct (attempt_step endpoint prompt i) as [evs [s|]]; cbn [fst snd] in *; subst evs.
      * unfold posts, sleeps. simpl. split; [lia|]. split; [lia|]. split; [lia|].
        split; [apply sublist_nil_l|]. constructor; [by left|constructor].
      * change ([EvPost prompt] ++ evs') with (EvPost prompt :: evs').
        unfold posts, sleeps in *. rewrite !filter_cons_True by done.
        rewrite filter_cons_False by done. simpl.
        split; [lia|]. split; [lia|]. split; [lia|].
        split; [by apply sublist_cons|]. constructor; [by left|by apply Hweak].
    + rewrite Hstep. cbn [fst snd].
      change ([EvPost prompt; EvSleep (backoff i)] ++ evs')
        with (EvPost prompt :: EvSleep (backoff i) :: evs').
      unfold posts, sleeps in *. rewrite !filter_cons_True by done.
      rewrite !filter_cons_False by done. rewrite !filter_cons_True by done. simpl.
      split; [lia|]. split; [lia|]. split; [lia|].
      split; [by apply sublist_skip|].
      constructor; [by left|]. constructor; [|by apply Hweak].
      right. exists i. split; [apply list_elem_of_here|done].
Qed.

Lemma hf_loop_trace endpoint prompt n i :
  ∃ slept : list bool,
    (length slept <= n)%nat
    ∧ ((1 <= n)%nat → (1 <= length slept)%nat)
    ∧ snd (hf_loop endpoint prompt (seq i n)) = attempts_trace prompt i slept
    ∧ (∀ k, slept !! k = Some true →
         (∃ r, endpoint (i + k)%nat = inr r ∧ (status r = 429 ∨ status r = 503))
         ∧ ((S k < length slept)%nat ∨ S k = n))
    ∧ (∀ k, (S k < length slept)%nat →
         snd (attempt_step endpoint prompt (i + k)) = None).
Proof.
  revert i. induction n as [|n IH]; intros i.
  { exists []. split; [simpl; lia|]. split; [lia|]. split; [done|].
    split; [done|]. simpl. lia. }
  cbn [seq hf_loop].
  destruct (IH (S i)) as (slept & Hlen & Hpos & Htrace & Hsleep & Hcont).
  destruct (hf_loop endpoint prompt (seq (S i) n)) as [s' evs']. cbn [snd] in Htrace.
  destruct (attempt_step_events endpoint prompt i) as [Hev | [Hstep Hr]].
  - destruct (attempt_step endpoint prompt i) as [evs [s|]] eqn:Hstep;
      cbn [fst snd] in *; subst evs.
    + exists [false]. split; [simpl; lia|]. split; [simpl; lia|]. split; [done|].
      split; [by intros [|k]|]. simpl. lia.
    + exists (false :: slept). split; [simpl; lia|]. split; [simpl; lia|].
      split; [by rewrite Htrace|]. split.
      * intros [|k] Hk; [done|]. destruct (Hsleep k Hk) as [Hrk Hnext].
        replace (i + S k)%nat with (S i + k)%nat by lia.
        split; [done|]. simpl. lia.
      * intros [|k] Hk.
        -- by rewrite Nat.add_0_r, Hstep.
        -- replace (i + S k)%nat with (S i + k)%nat by lia. apply Hcont. simpl in Hk. lia.
  - rewrite Hstep. cbn [snd]. exists (true :: slept).
    split; [simpl; lia|]. split; [simpl; lia|]. split; [by rewrite Htrace|]. split.
    + intros [|k] Hk.
      * rewrite Nat.add_0_r. split; [done|]. simpl.
        destruct n as [|n]; [by right|]. left. specialize (Hpos ltac:(lia)). lia.
      * destruct (Hsleep k Hk) as [Hrk Hnext].
        replace (i + S k)%nat with (S i + k)%nat by lia.
        split; [done|]. simpl. lia.
    + intros [|k] Hk.
      * by rewrite Nat.add_0_r, Hstep.
      * replace (i + S k)%nat with (S i + k)%nat by lia. apply Hcont. simpl in Hk. lia.
Qed.

(** X14. The trace of [hf_generate] is one to three attempts in a row,
    each a request with the prompt it was given, directly followed by at
    most one sleep, of the time of that attempt in the schedule (1.2, 2.0,
    2.8 seconds). An attempt sleeps only on a response with status 429 or
    503, and a sleep is followed by the next request unless it was the
    third attempt's, which ends the trace. Every attempt but the last went
    on without returning. So there are at least one and at most three
    requests, no more sleeps than requests, and no reply is sent. *)
Theorem hf_generate_bounded (endpoint : endpoint_t) (prompt : pystr) :
  let evs := snd (hf_generate endpoint prompt) in
  (∃ slept : list bool,
     (1 <= length slept <= 3)%nat
     ∧ evs = attempts_trace prompt 0 slept
     ∧ posts evs = length slept
     ∧ (∀ i, slept !! i = Some true →
          (∃ r, endpoint i = inr r ∧ (status r = 429 ∨ status r = 503))
          ∧ ((S i < length slept)%nat ∨ i = 2%nat))
     ∧ (∀ i, (S i < length slept)%nat → snd (attempt_step endpoint prompt i) = None))
  ∧ (1 <= posts evs <= 3)%nat
  ∧ (length (sleeps evs) <= posts evs)%nat
  ∧ sleeps evs `sublist_of` all_sleeps
  ∧ Forall (λ e, e = EvPost prompt ∨ ∃ i, (i < 3)%nat ∧ e = EvSleep (backoff i)) evs
  ∧ replies evs = []
  ∧ map backoff (seq 0 3) = SCHEDULE.
Proof.
  intros evs. subst evs.
  destruct (hf_loop_shape endpoint prompt (seq 0 3)) as (Hp & H1 & Hs & Hsub & Hall).
  fold (hf_generate endpoint prompt) in *. cbn zeta in *.
  split.
  { destruct (hf_loop_trace endpoint prompt 3 0) as (slept & Hlen & Hpos & Htrace & Hsl & Hc).
    fold (hf_generate endpoint prompt) in Htrace.
    exists slept. split; [split; [apply Hpos; lia|done]|]. split; [done|].
    split.
    - rewrite Htrace. clear. generalize 0%nat.
      induction slept as [|b slept IH]; intros i; [done|].
      cbn [attempts_trace length]. unfold posts in *.
      rewrite filter_cons_True by done. cbn [length]. f_equal.
      destruct b; [|apply IH].
      change ([EvSleep (backoff i)] ++ attempts_trace prompt (S i) slept)
        with (EvSleep (backoff i) :: attempts_trace prompt (S i) slept).
      rewrite filter_cons_False by done. apply IH.
    - split; [|exact Hc]. intros i Hi. destruct (Hsl i Hi) as [Hr Hn].
      split; [exact Hr|]. destruct Hn as [Hn|Hn]; [by left|right; lia]. }
  split; [split; [by apply H1|exact Hp]|]. split; [done|]. split; [done|].
  split; [|split; [apply hf_generate_no_reply|done]].
  eapply Forall_impl; [exact Hall|]. intros e [->|(i & Hi & ->)]; [by left|].
  right. exists i. split; [|done]. apply list_elem_of_In, in_seq in Hi. lia.
Qed.

#[warnings="-inexact-float"]
Example hf_generate_trace_ex :
  snd (hf_generate endpoint_recovering (lit "hi"))
  = attempts_trace (lit "hi") 0 [true; true; false]
  ∧ attempts_trace (lit "hi") 0 [true; true; false]
    = [EvPost (lit "hi"); EvSleep 1.2%float; EvPost (lit "hi"); EvSleep 2.0%float;
       EvPost (lit "hi")].
Proof. split; vm_compute; reflexivity. Qed.

Lemma attempt_step_returns endpoint prompt i s :
  snd (attempt_step endpoint prompt i) = Some s →
  fst (attempt_step endpoint prompt i) = [EvPost prompt]
  ∧ ((∃ r, endpoint i = inr r ∧ definitive r s)
     ∨ (i = 2%nat ∧ ∃ e, try_raises endpoint i e ∧ s = fallback e)).
Proof.
  unfold attempt_step, try_raises, try_block, definitive.
  assert (∀ e, handle i (Raises e) = Some s → i = 2%nat ∧ s = fallback e) as Hh.
  { intros e. simpl. destruct e; destruct (Nat.eqb_spec i 2); by intros [= <-]. }
  destruct (endpoint i) as [e|r]; cbn [fst snd].
  { intros [-> ->]%Hh. split; [done|]. right. split; [done|]. by exists e. }
  destruct (Z.eqb_spec (status r) 200) as [H200|H200].
  - destruct (json_body r) as [e|data] eqn:Hj; cbn [fst snd].
    { intros [-> ->]%Hh. split; [done|]. right. split; [done|]. by exists e. }
    destruct (first_choice_content data) as [c|] eqn:Hc; cbn [fst snd].
    + intros [= <-]. split; [done|]. left. exists r. split; [done|]. left.
      split; [done|]. by exists data.
    + intros [-> ->]%Hh. split; [done|]. right. split; [done|]. by exists OtherError.
  - unfold is_retry_status.
    destruct (Z.eqb_spec (status r) 429) as [H429|H429]; [done|].
    destruct (Z.eqb_spec (status r) 503) as [H503|H503]; [done|].
    cbn [orb]. destruct (text_body r) as [e|txt] eqn:Ht; cbn [fst snd].
    { intros [-> ->]%Hh. split; [done|]. right. split; [done|]. by exists e. }
    intros [= <-]. split; [done|]. left. exists r. split; [done|]. right.
    do 3 (split; [done|]). by exists txt.
Qed.

Lemma attempt_step_continues endpoint prompt i :
  snd (attempt_step endpoint prompt i) = None →
  (i = 2%nat → ∃ r, endpoint i = inr r ∧ (status r = 429 ∨ status r = 503)).
Proof.
  intros Hnone ->.
  destruct (attempt_step_events endpoint prompt 2) as [Hev | [_ Hr]]; [|done].
  revert Hnone Hev. unfold attempt_step, try_block.
  destruct (endpoint 2%nat) as [e|r]; cbn [fst snd]; [by destruct e|].
  destruct (status r =? 200).
  - destruct (json_body r) as [e|data]; cbn [fst snd]; [by destruct e|].
    by destruct (first_choice_content data).
  - destruct (is_retry_status (status r)); cbn [fst snd]; [by intros _ [=]|].
    destruct (text_body r) as [e|txt]; cbn [fst snd]; [by destruct e|done].
Qed.

(** X15. Every call of [hf_generate] ends in one of two ways. Either some
    attempt gets a response that settles the call, a 200 with its trimmed
    content or a status other than 200, 429 and 503 with its diagnostic, and
    that request is the last one; or three requests are made and the third
    attempt alone chooses the fallback: the exception's own, or the "busy"
    one after a 429 or 503. A fallback is never returned before the third
    request. *)
Theorem hf_generate_outcome (endpoint : endpoint_t) (prompt : pystr) :
  let result := fst (hf_generate endpoint prompt) in
  let evs := snd (hf_generate endpoint prompt) in
  ∃ i, (i < 3)%nat ∧ reaches endpoint prompt i ∧ posts evs = S i
    ∧ ((∃ r, endpoint i = inr r ∧ definitive r result)
       ∨ (i = 2%nat
          ∧ ((∃ e, try_raises endpoint 2 e ∧ result = fallback e)
             ∨ (∃ r, endpoint 2%nat = inr r ∧ (status r = 429 ∨ status r = 503)
                     ∧ result = BUSY)))).
Proof.
  cbn zeta.
  assert (∀ i, (i < 3)%nat → reaches endpoint prompt i →
    ∀ s, snd (attempt_step endpoint prompt i) = Some s →
    fst (hf_generate endpoint prompt) = s
    ∧ posts (snd (hf_generate endpoint prompt)) = S i) as Hret.
  { intros i Hi Hreach s Hs.
    destruct (attempt_step_returns endpoint prompt i s Hs) as [Hev _].
    rewrite (hf_generate_from endpoint prompt i) by (done || lia).
    rewrite (hf_loop_return endpoint prompt i [EvPost prompt] s Hi).
    - cbn [fst snd]. split; [done|]. rewrite posts_app, posts_events_before.
      unfold posts. simpl. lia.
    - destruct (attempt_step endpoint prompt i). simpl in *. congruence. }
  assert (∀ i, (i < 3)%nat → reaches endpoint prompt i →
    snd (attempt_step endpoint prompt i) = None → reaches endpoint prompt (S i)) as Hnext.
  { intros i Hi Hreach Hnone j Hj. destruct (decide (j = i)) as [->|]; [done|].
    apply Hreach. lia. }
  assert (∀ i, (i < 3)%nat → reaches endpoint prompt i →
    ∀ s, snd (attempt_step endpoint prompt i) = Some s →
    ∃ i, (i < 3)%nat ∧ reaches endpoint prompt i
      ∧ posts (snd (hf_generate endpoint prompt)) = S i
      ∧ ((∃ r, endpoint i = inr r ∧ definitive r (fst (hf_generate endpoint prompt)))
         ∨ (i = 2%nat
            ∧ ((∃ e, try_raises endpoint 2 e
                     ∧ fst (hf_generate endpoint prompt) = fallback e)
               ∨ (∃ r, endpoint 2%nat = inr r ∧ (status r = 429 ∨ status r = 503)
                       ∧ fst (hf_generate endpoint prompt) = BUSY))))) as Hdone.
  { intros i Hi Hreach s Hs. destruct (Hret i Hi Hreach s Hs) as [-> Hposts].
    exists i. do 3 (split; [done|]).
    destruct (attempt_step_returns endpoint prompt i s Hs) as [_ [Hdef|[-> He]]];
      [by left|]. right. split; [done|]. by left. }
  pose proof (reaches_0 endpoint prompt) as H0.
  destruct (snd (attempt_step endpoint prompt 0)) as [s|] eqn:Hs0;
    [by apply (Hdone 0%nat ltac:(lia) H0 s)|].
  pose proof (Hnext 0%nat ltac:(lia) H0 Hs0) as H1.
  destruct (snd (attempt_step endpoint prompt 1)) as [s|] eqn:Hs1;
    [by apply (Hdone 1%nat ltac:(lia) H1 s)|].
  pose proof (Hnext 1%nat ltac:(lia) H1 Hs1) as H2.
  destruct (snd (attempt_step endpoint prompt 2)) as [s|] eqn:Hs2;
    [by apply (Hdone 2%nat ltac:(lia) H2 s)|].
  destruct (attempt_step_continues endpoint prompt 2 Hs2 eq_refl) as (r & Hr & Hst).
  exists 2%nat. split; [lia|]. split; [done|].
  pose proof (attempt_step_retry endpoint prompt 2 r Hr Hst) as Hstep.
  rewrite (hf_generate_from endpoint prompt 2) by (done || lia).
  rewrite (hf_loop_next endpoint prompt 2 _ ltac:(lia) Hstep). cbn [fst snd seq hf_loop].
  split.
  - rewrite posts_app, posts_events_before. unfold posts. simpl. lia.
  - right. split; [done|]. right. by exists r.
Qed.

(** X16. A 200 whose body cannot be used counts as an unexpected failure:
    it is retried at once, without a sleep, and when all three attempts end
    so the "something broke" fallback is returned after three requests. *)
Theorem hf_generate_malformed (endpoint : endpoint_t) (prompt : pystr) :
  (∀ i, (i < 3)%nat → ∃ r, endpoint i = inr r ∧ malformed_200 r) →
  hf_generate endpoint prompt = (BROKE, [EvPost prompt; EvPost prompt; EvPost prompt]).
Proof.
  intros Hall.
  assert (∀ i, (i < 3)%nat →
    attempt_step endpoint prompt i = ([EvPost prompt], handle i (Raises OtherError))) as Hstep.
  { intros i Hi. destruct (Hall i Hi) as (r & Hr & Hst & Hbody).
    apply attempt_step_raises. unfold try_block. rewrite Hr, Hst. simpl.
    destruct Hbody as [-> | (data & -> & ->)]; done. }
  unfold hf_generate. cbn [seq hf_loop].
  by rewrite !Hstep by lia.
Qed.

Lemma hf_generate_malformed_witness :
  hf_generate endpoint_error_document (lit "hi")
  = (BROKE, [EvPost (lit "hi"); EvPost (lit "hi"); EvPost (lit "hi")]).
Proof.
  apply (hf_generate_malformed endpoint_error_document (lit "hi")).
  intros i _. eexists. split; [reflexivity|].
  split; [reflexivity|]. right. eexists. split; [reflexivity|]. reflexivity.
Defined.

(** ** Further facts: the prompt builder *)

Lemma keep_unmarked_sublist marks (s : pystr) : keep_unmarked marks s `sublist_of` s.
Proof.
  revert s. induction marks as [|m marks IH]; intros s; [by destruct s|].
  destruct s as [|c s]; [done|]. simpl.
  destruct m; [by apply sublist_cons|by apply sublist_skip].
Qed.

Lemma last_context_entries (history : list pystr) (e : pystr) :
  last history = Some e → last (context_entries history) = Some e.
Proof.
  unfold context_entries. intros Hlast.
  destruct history as [|a history] using rev_ind; [done|].
  rewrite last_snoc in Hlast. injection Hlast as ->.
  rewrite drop_app_le by (rewrite length_app; simpl; lia).
  apply last_snoc.
Qed.

Lemma join_snoc sep (parts : list pystr) (x : pystr) :
  ∃ lines, join sep (parts ++ [x]) = lines ++ x.
Proof.
  induction parts as [|p parts (lines & IH)]; [by exists []|].
  exists (p ++ sep ++ lines). simpl.
  destruct (parts ++ [x]) as [|q rest] eqn:Hq; [by destruct parts|].
  rewrite IH. by rewrite <- !app_assoc.
Qed.

Section PromptProperties.

Variable lower : pystr -> pystr.
Variable ci_eq : char -> char -> bool.
Variable ROAST_LINES : list pystr.

Lemma sub_scan_no_occurrence pat s :
  (∀ i, occurs_at ci_eq pat s i = false) → sub_scan ci_eq pat 0 s = s.
Proof.
  induction s as [|c s IH]; intros Hnone; [done|].
  cbn [sub_scan]. pose proof (Hnone 0%nat) as H0. unfold occurs_at in H0.
  rewrite drop_0 in H0. rewrite H0. f_equal. apply IH.
  intros i. apply (Hnone (S i)).
Qed.

(** X17. Cleaning only deletes: what [build_prompt] makes of the user
    text is a subsequence of it, and a text that holds no occurrence of the
    mention is only trimmed and cut to 800 characters. *)
Theorem cleaned_text_only_deletes (user_text bot_username : pystr) :
  strip_mentions ci_eq bot_username user_text `sublist_of` user_text
  ∧ cleaned_text ci_eq user_text bot_username `sublist_of` user_text
  ∧ ((∀ i, occurs_at ci_eq (AT_SIGN :: bot_username) user_text i = false) →
     strip_mentions ci_eq bot_username user_text = user_text
     ∧ cleaned_text ci_eq user_text bot_username = take 800 (strip user_text)).
Proof.
  assert (strip_mentions ci_eq bot_username user_text `sublist_of` user_text) as Hsub.
  { unfold strip_mentions. rewrite sub_scan_marks. apply keep_unmarked_sublist. }
  split; [done|]. split.
  - unfold cleaned_text. etransitivity; [apply sublist_take|].
    etransitivity; [apply strip_sublist|done].
  - intros Hnone. unfold cleaned_text, strip_mentions.
    by rewrite sub_scan_no_occurrence.
Qed.

(** X18. A recorded message that addresses the bot is part of its own
    context: the request that [on_text] makes carries a prompt whose last
    context line is the entry just recorded for this message. *)
Theorem on_text_prompt_context (env : Env) (update : Update) (st : State)
    (msg : Message) (raw : pystr) (ch : Chat) :
  message update = Some msg → text msg = Some raw → chat msg = Some ch →
  is_group update = true →
  startswith [SLASH] (normalize_text raw) = false →
  should_answer_with_llm lower update (default [] (env_bot_username env)) = true →
  let entry := roast_candidate_name update ++ lit ": " ++ take 120 (normalize_text raw) in
  ∃ history rest,
    snd (on_text lower ci_eq ROAST_LINES env update st)
    = EvPost (build_prompt ci_eq (normalize_text raw) history
                (default [] (env_bot_username env))) :: rest
    ∧ last (context_entries history) = Some entry
    ∧ ∃ lines, context_block history = lines ++ lit "- " ++ entry.
Proof.
  intros Hmsg Htext Hchat Hgroup Hslash Hllm entry.
  assert (raw ≠ []) as Hraw.
  { intros ->. unfold should_answer_with_llm in Hllm. by rewrite Hmsg, Htext in Hllm. }
  rewrite (on_text_llm lower ci_eq ROAST_LINES env update st msg raw ch) by done.
  cbv zeta. cbn [snd].
  set (history := chat_context (recorded update raw ch st) (chat_ident ch)).
  destruct (hf_generate_starts_with_post (env_endpoint env)
              (build_prompt ci_eq (normalize_text raw) history
                 (default [] (env_bot_username env)))) as [rest Hrest].
  exists history, (rest ++ [EvReply (postprocess (fst (hf_generate (env_endpoint env)
    (build_prompt ci_eq (normalize_text raw) history (default [] (env_bot_username env))))))]).
  split; [by rewrite Hrest|].
  assert (last (context_entries history) = Some entry) as Hlast.
  { apply last_context_entries. subst history. unfold recorded. rewrite Hslash. cbn [negb].
    rewrite chat_context_history_append, decide_True by done. apply last_deque_append. }
  split; [done|].
  unfold context_block. destruct (context_entries history) as [|a l _] using rev_ind; [done|].
  rewrite last_snoc in Hlast. injection Hlast as ->.
  rewrite map_app. apply join_snoc.
Qed.

End PromptProperties.

Lemma cleaned_text_only_deletes_witness :
  strip_mentions ascii_ci_eq sophie (lit "good morning") = lit "good morning"
  ∧ cleaned_text ascii_ci_eq (lit "good morning") sophie
    = take 800 (strip (lit "good morning")).
Proof.
  apply (cleaned_text_only_deletes ascii_ci_eq (lit "good morning") sophie).
  intros i. do 13 (destruct i as [|i]; [reflexivity|]).
  unfold occurs_at. by rewrite drop_ge by (simpl; lia).
Defined.

Lemma on_text_prompt_context_witness :
  ∃ history rest,
    snd (on_text ascii_lower ascii_ci_eq [lit "is late again"] (roast_env 1000)
           mention_message initial_state)
    = EvPost (build_prompt ascii_ci_eq (normalize_text (lit "hello   @sophie_bot ")) history
                sophie) :: rest
    ∧ last (context_entries history) = Some (lit "Ann: hello @sophie_bot").
Proof.
  destruct (on_text_prompt_context ascii_lower ascii_ci_eq [lit "is late again"]
              (roast_env 1000) mention_message initial_state
              (mkMessage (Some (lit "hello   @sophie_bot ")) [mkEntity (lit "mention") 8 11]
                 (Some (mkChat (-1001) (lit "supergroup")))
                 (Some (mkUser (lit "Ann") (Some (lit "ann_92")))) None)
              (lit "hello   @sophie_bot ") (mkChat (-1001) (lit "supergroup")))
    as (history & rest & Hevs & Hlast & _).
  - reflexivity.
  - reflexivity.
  - reflexivity.
  - reflexivity.
  - vm_compute. reflexivity.
  - vm_compute. reflexivity.
  - exists history, rest. split; [exact Hevs|exact Hlast].
Defined.
